(** * NeoNotate: the Note Store of [smc.py]

    A shallow embedding of the class [NoteManager] (notes, categories and
    keyword weights mirrored to one JSON file) and the properties of its
    operations.

    Conventions of the embedding.
    - A Python [str] is a [string]; the character [ascii] of code [n] stands
      for the code point [n], so the strings covered are those over the code
      points below 256, on which [str.lower], [str.strip] and [str.split]
      are the functions of [PyStr] below.
    - A Python [dict] keeps its keys in insertion order: it is an association
      list without repeated keys ([Dict.wf]); assignment to a present key
      keeps the key's position, assignment to a new key appends.
    - A Python [int] is a [Z].
    - A method is a function from the [world] (the object, the files, the
      lines printed so far) to an [outcome] and the world it leaves behind;
      an exception does not undo the mutations made before it.
    - [json.dump] and [json.load] are taken at the level of the JSON value
      they write and read: a file holds a JSON value or text that is not
      JSON.  Opening a file for writing may fail with an [IOError], which
      [save_data] and [export_notes] catch and print; reading fails only on
      a missing file.
    - The body of [categorize_notes] is given a second time on any type of
      strings ([Any]), for what holds whatever [str.lower] does, and on
      strings with one character above 255 ([Wide]). *)

From Stdlib Require Import ZArith List String Ascii Bool Lia.
Import ListNotations.

Local Open Scope list_scope.
Local Open Scope Z_scope.
Local Open Scope string_scope.

(* ================================================================= *)
(** ** Python strings *)

Module PyStr.

(** [str.isspace] on one character: TAB..CR, FS..US, space, NEL, NBSP. *)
Definition isspace (c : ascii) : bool :=
  let n := nat_of_ascii c in
  (((9 <=? n) && (n <=? 13)) || ((28 <=? n) && (n <=? 32))
   || (n =? 133) || (n =? 160))%nat.

(** [str.isupper] on one character: A..Z and the capital letters of the
    Latin-1 supplement (0xC0..0xDE without the multiplication sign). *)
Definition isupper (c : ascii) : bool :=
  let n := nat_of_ascii c in
  (((65 <=? n) && (n <=? 90))
   || ((192 <=? n) && (n <=? 222) && negb (n =? 215)))%nat.

Definition lower_char (c : ascii) : ascii :=
  if isupper c then ascii_of_nat (nat_of_ascii c + 32) else c.

(** [s.lower()] *)
Fixpoint lower (s : string) : string :=
  match s with
  | EmptyString => EmptyString
  | String c r => String (lower_char c) (lower r)
  end.

Fixpoint all_space (s : string) : bool :=
  match s with
  | EmptyString => true
  | String c r => isspace c && all_space r
  end.

Definition is_empty (s : string) : bool :=
  match s with EmptyString => true | String _ _ => false end.

Fixpoint lstrip (s : string) : string :=
  match s with
  | EmptyString => EmptyString
  | String c r => if isspace c then lstrip r else s
  end.

Fixpoint rstrip (s : string) : string :=
  match s with
  | EmptyString => EmptyString
  | String c r =>
      let r' := rstrip r in
      if isspace c && is_empty r' then EmptyString else String c r'
  end.

(** [s.strip()] *)
Definition strip (s : string) : string := rstrip (lstrip s).

(** No character of [s] is whitespace. *)
Fixpoint no_space (s : string) : bool :=
  match s with
  | EmptyString => true
  | String c r => negb (isspace c) && no_space r
  end.

(** The last character of [s] is whitespace. *)
Fixpoint ends_with_space (s : string) : bool :=
  match s with
  | EmptyString => false
  | String c EmptyString => isspace c
  | String _ r => ends_with_space r
  end.

(** The next character continues the word that is being read. *)
Definition word_goes_on (r : string) : bool :=
  match r with
  | EmptyString => false
  | String c _ => negb (isspace c)
  end.

(** [s.split()]: the maximal runs of characters that are not whitespace. *)
Fixpoint split (s : string) : list string :=
  match s with
  | EmptyString => []
  | String c r =>
      if isspace c then split r
      else if word_goes_on r then
        match split r with
        | w :: ws => String c w :: ws
        | [] => [String c EmptyString]
        end
      else String c EmptyString :: split r
  end.

(** [s.startswith(p)] *)
Fixpoint startswith (p s : string) : bool :=
  match p, s with
  | EmptyString, _ => true
  | String _ _, EmptyString => false
  | String a p', String b s' => Ascii.eqb a b && startswith p' s'
  end.

(** [needle in hay] on two strings *)
Fixpoint contains (needle hay : string) : bool :=
  startswith needle hay
  || match hay with
     | EmptyString => false
     | String _ r => contains needle r
     end.

(** [x in l] on a list of strings *)
Fixpoint in_list (x : string) (l : list string) : bool :=
  match l with
  | [] => false
  | y :: r => String.eqb x y || in_list x r
  end.

(** [l.count(x)] *)
Fixpoint count (x : string) (l : list string) : Z :=
  match l with
  | [] => 0
  | y :: r => (if String.eqb x y then 1 else 0) + count x r
  end.

(** [sep.join(l)] *)
Definition join (sep : string) (l : list string) : string :=
  String.concat sep l.

End PyStr.

(* ================================================================= *)
(** ** Python dictionaries with string keys *)

Module Dict.

Definition dict (V : Type) : Type := list (string * V).

Definition keys {V} (d : dict V) : list string := map fst d.

(** [d.get(k)] *)
Fixpoint get {V} (k : string) (d : dict V) : option V :=
  match d with
  | [] => None
  | (k', v) :: r => if String.eqb k k' then Some v else get k r
  end.

(** [d.get(k, default)] *)
Definition get_or {V} (k : string) (default : V) (d : dict V) : V :=
  match get k d with Some v => v | None => default end.

(** [k in d] *)
Definition mem {V} (k : string) (d : dict V) : bool :=
  match get k d with Some _ => true | None => false end.

(** [d[k] = v] *)
Fixpoint set {V} (k : string) (v : V) (d : dict V) : dict V :=
  match d with
  | [] => [(k, v)]
  | (k', v') :: r =>
      if String.eqb k k' then (k, v) :: r else (k', v') :: set k v r
  end.

(** The representation invariant: no key occurs twice. *)
Definition wf {V} (d : dict V) : Prop := NoDup (keys d).

End Dict.

Import Dict.
Import PyStr.

(* ================================================================= *)
(** ** JSON values and files *)

(** The values [json.load] returns and [json.dump] accepts (numbers are
    integers; an object is a Python [dict]). *)
#[warnings="-register-all"]
Inductive json : Type :=
| JNull
| JBool (b : bool)
| JInt (z : Z)
| JStr (s : string)
| JArr (l : list json)
| JObj (m : list (string * json)).

(** [type(j).__name__] *)
Definition type_name (j : json) : string :=
  match j with
  | JNull => "NoneType"
  | JBool _ => "bool"
  | JInt _ => "int"
  | JStr _ => "str"
  | JArr _ => "list"
  | JObj _ => "dict"
  end.

(** What a file holds: text on which [json.load] raises [JSONDecodeError],
    or a JSON value. *)
Inductive file_content : Type :=
| NotJson
| Json (j : json).

(** The files: [files path] is the content of an existing file;
    [open_w_error path] is the text of the [IOError] that opening [path]
    for writing raises, if it does. *)
Record filesystem : Type := {
  files : string -> option file_content;
  open_w_error : string -> option string
}.

(** Writing a file.  A file is known by the string of its path: two names
    of one file are two files here. *)
Definition fs_write (path : string) (c : file_content) (f : filesystem)
  : filesystem :=
  {| files := fun q => if String.eqb q path then Some c else files f q;
     open_w_error := open_w_error f |}.

(* ================================================================= *)
(** ** The data model *)

Record note : Type := { content : string; category : string }.

Record NoteManager : Type := {
  data_file : string;
  notes : list note;
  categories : dict (list string);
  keyword_weights : dict Z
}.

(** [NoteManager(data_file)] *)
Definition init (data_file : string) : NoteManager :=
  {| data_file := data_file; notes := []; categories := [];
     keyword_weights := [] |}.

Record world : Type := {
  self : NoteManager;
  fs : filesystem;
  stdout : list string
}.

Inductive exn : Type := ValueError | KeyError | TypeError.

Inductive outcome (A : Type) : Type :=
| Returned (a : A)
| Raised (e : exn).
Arguments Returned {A} a.
Arguments Raised {A} e.

(** Pure code that may raise. *)
Definition obind {A B} (o : outcome A) (k : A -> outcome B) : outcome B :=
  match o with
  | Returned a => k a
  | Raised e => Raised e
  end.

Notation "x <~ o ;; k" := (obind o (fun x => k))
  (at level 61, o at next level, right associativity).

(** Methods: state passing with exceptions. *)
Definition M (A : Type) : Type := world -> outcome A * world.

Definition ret {A} (a : A) : M A := fun w => (Returned a, w).

Definition bind {A B} (m : M A) (k : A -> M B) : M B :=
  fun w =>
    match m w with
    | (Returned a, w') => k a w'
    | (Raised e, w') => (Raised e, w')
    end.

Notation "x <- m ;; k" := (bind m (fun x => k))
  (at level 61, m at next level, right associativity).
Notation "m ;; k" := (bind m (fun _ => k))
  (at level 61, right associativity).

Definition lift {A} (o : outcome A) : M A := fun w => (o, w).

Definition get_self : M NoteManager := fun w => (Returned (self w), w).

Definition put_self (me : NoteManager) : M unit :=
  fun w => (Returned tt, {| self := me; fs := fs w; stdout := stdout w |}).

Definition print (line : string) : M unit :=
  fun w =>
    (Returned tt,
     {| self := self w; fs := fs w; stdout := (stdout w ++ [line])%list |}).

(** [with open(path, 'w') as file: json.dump(j, file, indent=4)] under
    [try]: the text of the [IOError] when the file cannot be opened.  An
    exception of another class, as [open] raises on a name with a NUL
    character, is not among the outcomes here. *)
Definition write_json (path : string) (j : json) : M (option string) :=
  fun w =>
    match open_w_error (fs w) path with
    | Some e => (Returned (Some e), w)
    | None =>
        (Returned None,
         {| self := self w; fs := fs_write path (Json j) (fs w);
            stdout := stdout w |})
    end.

Fixpoint for_each {A} (l : list A) (body : A -> M unit) : M unit :=
  match l with
  | [] => ret tt
  | x :: r => body x ;; for_each r body
  end.

Definition set_notes (v : list note) : M unit :=
  me <- get_self ;;
  put_self {| data_file := data_file me; notes := v;
              categories := categories me;
              keyword_weights := keyword_weights me |}.

Definition set_categories (v : dict (list string)) : M unit :=
  me <- get_self ;;
  put_self {| data_file := data_file me; notes := notes me;
              categories := v; keyword_weights := keyword_weights me |}.

Definition set_keyword_weights (v : dict Z) : M unit :=
  me <- get_self ;;
  put_self {| data_file := data_file me; notes := notes me;
              categories := categories me; keyword_weights := v |}.

(* ================================================================= *)
(** ** The JSON document of the store *)

Definition note_to_json (n : note) : json :=
  JObj [("content", JStr (content n)); ("category", JStr (category n))].

Definition notes_to_json (l : list note) : json :=
  JArr (map note_to_json l).

Definition categories_to_json (d : dict (list string)) : json :=
  JObj (map (fun '(k, kws) => (k, JArr (map JStr kws))) d).

Definition weights_to_json (d : dict Z) : json :=
  JObj (map (fun '(k, v) => (k, JInt v)) d).

Fixpoint map_opt {A B} (f : A -> option B) (l : list A) : option (list B) :=
  match l with
  | [] => Some []
  | x :: r =>
      match f x, map_opt f r with
      | Some y, Some ys => Some (y :: ys)
      | _, _ => None
      end
  end.

(** The typed reading of a loaded value; [None] when the value does not have
    the shape the store writes. *)
Definition note_of_json (j : json) : option note :=
  match j with
  | JObj [(k1, JStr c); (k2, JStr k)] =>
      if String.eqb k1 "content" && String.eqb k2 "category"
      then Some {| content := c; category := k |}
      else None
  | _ => None
  end.

Definition notes_of_json (j : json) : option (list note) :=
  match j with
  | JArr l => map_opt note_of_json l
  | _ => None
  end.

Definition str_of_json (j : json) : option string :=
  match j with
  | JStr s => Some s
  | _ => None
  end.

Definition categories_of_json (j : json) : option (dict (list string)) :=
  match j with
  | JObj m =>
      map_opt (fun '(k, v) =>
                 match v with
                 | JArr l =>
                     match map_opt str_of_json l with
                     | Some kws => Some (k, kws)
                     | None => None
                     end
                 | _ => None
                 end) m
  | _ => None
  end.

Definition weights_of_json (j : json) : option (dict Z) :=
  match j with
  | JObj m =>
      map_opt (fun '(k, v) =>
                 match v with
                 | JInt z => Some (k, z)
                 | _ => None
                 end) m
  | _ => None
  end.

(* ================================================================= *)
(** ** The methods of [NoteManager] *)

(** The dictionary [data] of [save_data], as the JSON value written. *)
Definition document (me : NoteManager) : json :=
  JObj [("notes", notes_to_json (notes me));
        ("categories", categories_to_json (categories me));
        ("keyword_weights", weights_to_json (keyword_weights me))].

(** [save_data] *)
Definition save_data : M unit :=
  me <- get_self ;;
  let data := document me in
  r <- write_json (data_file me) data ;;
  match r with
  | None => print "Data saved successfully!"
  | Some e => print ("Error saving data: " ++ e)
  end.

(** [load_data].  The three members are stored as they come and are not
    checked: a document whose members do not have the shapes of the store
    leaves the typed model, and the result is [None]. *)
Definition load_data (w : world) : option (outcome unit * world) :=
  let me := self w in
  let w1 := snd (print ("Loading data from: " ++ data_file me) w) in
  match files (fs w1) (data_file me) with
  | None =>
      Some (print ("File '" ++ data_file me
                   ++ "' not found. A new file will be created upon saving.")
              w1)
  | Some NotJson =>
      Some (print "Error: Invalid file format. Could not load data." w1)
  | Some (Json (JObj data)) =>
      match notes_of_json (get_or "notes" (JArr []) data),
            categories_of_json (get_or "categories" (JObj []) data),
            weights_of_json (get_or "keyword_weights" (JObj []) data) with
      | Some ns, Some cs, Some ws =>
          Some ((put_self {| data_file := data_file me; notes := ns;
                             categories := cs; keyword_weights := ws |} ;;
                 print "Data loaded successfully!") w1)
      | _, _, _ => None
      end
  | Some (Json j) =>
      Some (print ("Unexpected error: '" ++ type_name j
                   ++ "' object has no attribute 'get'") w1)
  end.

(** [add_category] *)
Definition add_category (category : string) (keywords : list string)
  : M unit :=
  let category := strip category in
  let keywords_list :=
    map strip (filter (fun kw => negb (is_empty (strip kw))) keywords) in
  if is_empty category then print "Error: Category name cannot be empty."
  else
    match keywords_list with
    | [] => print "Error: Keywords cannot be empty."
    | _ :: _ =>
        me <- get_self ;;
        if mem category (categories me)
        then print ("Error: Category '" ++ category ++ "' already exists.")
        else
          set_categories (Dict.set category keywords_list (categories me)) ;;
          save_data ;;
          print ("Category '" ++ category
                 ++ "' added successfully with keywords: "
                 ++ join ", " keywords_list)
    end.

(** [scores[category] += d] *)
Definition add_to_score (scores : dict Z) (category : string) (d : Z)
  : outcome (dict Z) :=
  match Dict.get category scores with
  | Some v => Returned (Dict.set category (v + d) scores)
  | None => Raised KeyError
  end.

(** The inner loop of [categorize_notes], over [self.categories.items()]. *)
Fixpoint score_word (weights : dict Z) (word : string)
    (items : list (string * list string)) (scores : dict Z)
  : outcome (dict Z) :=
  match items with
  | [] => Returned scores
  | (category, keywords) :: rest =>
      if in_list word (map lower keywords) then
        scores' <~ add_to_score scores category (get_or word 1 weights) ;;
        score_word weights word rest scores'
      else score_word weights word rest scores
  end.

(** The outer loop of [categorize_notes], over the words. *)
Fixpoint score_words (weights : dict Z) (cats : dict (list string))
    (words : list string) (scores : dict Z) : outcome (dict Z) :=
  match words with
  | [] => Returned scores
  | word :: rest =>
      scores' <~ score_word weights word cats scores ;;
      score_words weights cats rest scores'
  end.

(** [val > maxval], between results of [scores.get] *)
Definition py_gt (a b : option Z) : outcome bool :=
  match a, b with
  | Some x, Some y => Returned (Z.ltb y x)
  | _, _ => Raised TypeError
  end.

(** The loop of [max]: the running maximum is replaced only by a strictly
    greater value. *)
Fixpoint max_loop (key : string -> option Z) (maxitem : string)
    (maxval : option Z) (l : list string) : outcome string :=
  match l with
  | [] => Returned maxitem
  | item :: r =>
      let val := key item in
      gt <~ py_gt val maxval ;;
      if (gt : bool) then max_loop key item val r
      else max_loop key maxitem maxval r
  end.

(** [max(l, key=key)] *)
Definition py_max (l : list string) (key : string -> option Z)
  : outcome string :=
  match l with
  | [] => Raised ValueError
  | item :: r => max_loop key item (key item) r
  end.

(** [d[k]] *)
Definition subscript {V} (d : dict V) (k : string) : outcome V :=
  match Dict.get k d with
  | Some v => Returned v
  | None => Raised KeyError
  end.

(** The body of [categorize_notes], on the two collections it reads. *)
Definition categorize (cats : dict (list string)) (weights : dict Z)
    (note_content : string) : outcome string :=
  let words := map lower (split note_content) in
  let scores := fold_left (fun sc c => Dict.set c 0 sc) (keys cats) [] in
  scores <~ score_words weights cats words scores ;;
  suitable_category <~ py_max (keys scores) (fun k => Dict.get k scores) ;;
  v <~ subscript scores suitable_category ;;
  if Z.eqb v 0 then Returned "Others" else Returned suitable_category.

(** [categorize_notes] *)
Definition categorize_notes (note_content : string) : M string :=
  me <- get_self ;;
  lift (categorize (categories me) (keyword_weights me) note_content).

(** [update_keyword_weights] *)
Definition update_keyword_weights (words : list string) (category : string)
  : M unit :=
  me <- get_self ;;
  if negb (mem category (categories me))
  then print ("Error: Category '" ++ category ++ "' does not exist.")
  else
    for_each words (fun word =>
      me <- get_self ;;
      if in_list word (get_or category [] (categories me))
      then set_keyword_weights
             (Dict.set word (get_or word 0 (keyword_weights me) + 1)
                (keyword_weights me))
      else ret tt) ;;
    save_data.

(** [add_note] *)
Definition add_note (note_content : string) : M unit :=
  let note_content := strip note_content in
  if is_empty note_content then print "Error: Note content cannot be empty."
  else
    category <- categorize_notes note_content ;;
    me <- get_self ;;
    set_notes (notes me
               ++ [{| content := note_content; category := category |}]) ;;
    update_keyword_weights (split note_content) category ;;
    save_data ;;
    print ("Note added successfully under category '" ++ category ++ "'.").

Definition newline : string := String (ascii_of_nat 10) EmptyString.

(** [view_notes] *)
Definition view_notes : M unit :=
  me <- get_self ;;
  match notes me with
  | [] => print "No notes available to view."
  | _ :: _ =>
      print (newline ++ "--- Viewing All Notes ---") ;;
      for_each (notes me) (fun note =>
        print ("Category: " ++ category note ++ " | Note: " ++ content note))
  end.

(** [search_notes] *)
Definition search_notes (keyword : string) : M (list note) :=
  let keyword := strip keyword in
  if is_empty keyword then
    print "Error: Keyword cannot be empty." ;; ret []
  else
    me <- get_self ;;
    let results :=
      filter (fun note => contains (lower keyword) (lower (content note)))
        (notes me) in
    match results with
    | [] =>
        print ("No notes found containing the keyword '" ++ keyword ++ "'.")
    | _ :: _ => ret tt
    end ;;
    ret results.

(** [export_notes] *)
Definition export_notes (filename : string) : M unit :=
  let filename := strip filename in
  if is_empty filename then print "Error: Filename cannot be empty."
  else
    me <- get_self ;;
    r <- write_json filename (notes_to_json (notes me)) ;;
    match r with
    | None => print ("Notes exported successfully to '" ++ filename ++ "'.")
    | Some e => print ("Error exporting notes: " ++ e)
    end.

(* ================================================================= *)
(** ** Sequences of calls *)

Inductive call : Type :=
| AddCategory (category : string) (keywords : list string)
| AddNote (note_content : string)
| SearchNotes (keyword : string)
| ViewNotes
| ExportNotes (filename : string).

(** The world a call leaves behind, whether it returns or raises. *)
Definition after (c : call) (w : world) : world :=
  match c with
  | AddCategory category keywords => snd (add_category category keywords w)
  | AddNote note_content => snd (add_note note_content w)
  | SearchNotes keyword => snd (search_notes keyword w)
  | ViewNotes => snd (view_notes w)
  | ExportNotes filename => snd (export_notes filename w)
  end.

(** The worlds reached from the empty store by calls, each call starting
    where the one before stopped. *)
Inductive reachable (path : string) (f : filesystem) : world -> Prop :=
| reach_init :
    reachable path f {| self := init path; fs := f; stdout := [] |}
| reach_call : forall c w,
    reachable path f w -> reachable path f (after c w).

(* ================================================================= *)
(** ** Closed forms used in the statements *)

(** The weights after the loop of [update_keyword_weights] over [words], for
    a category whose keywords are [kws]. *)
Definition bump_weights (kws words : list string) (weights : dict Z)
  : dict Z :=
  fold_left
    (fun wts word =>
       if in_list word kws
       then Dict.set word (get_or word 0 wts + 1) wts
       else wts)
    words weights.

(** What one lowered word adds to the score of a category with keywords
    [kws]: the word's weight, 1 when it has none, if the word is one of the
    lowered keywords. *)
Definition word_score (weights : dict Z) (kws : list string) (word : string)
  : Z :=
  if in_list word (map lower kws) then get_or word 1 weights else 0.

(** The score of a category with keywords [kws] on the lowered words. *)
Definition match_score (weights : dict Z) (words kws : list string) : Z :=
  fold_right (fun word acc => word_score weights kws word + acc) 0 words.

(** No whitespace token of [note_content] equals, up to case, a keyword of a
    category of [cats]. *)
Definition no_token_matches (cats : dict (list string))
    (note_content : string) : Prop :=
  forall word c kws kw,
    In word (split note_content) -> In (c, kws) cats -> In kw kws ->
    lower word <> lower kw.

(** [needle] occurs in [hay] when case is ignored. *)
Definition occurs_ignoring_case (needle hay : string) : Prop :=
  exists pre post, lower hay = pre ++ lower needle ++ post.

(** Every note is filed under a registered category or under "Others". *)
Definition categories_known (me : NoteManager) : Prop :=
  forall n, In n (notes me) ->
    category n = "Others" \/ In (category n) (keys (categories me)).

(** A file system with no file, on which every file can be written. *)
Definition empty_fs : filesystem :=
  {| files := fun _ => None; open_w_error := fun _ => None |}.

(** A file system with no file, on which no file can be opened for
    writing. *)
Definition locked_fs : filesystem :=
  {| files := fun _ => None;
     open_w_error := fun _ => Some "Permission denied" |}.

(** The world at start-up, before [load_data]. *)
Definition fresh (path : string) (f : filesystem) : world :=
  {| self := init path; fs := f; stdout := [] |}.

(** The store of the example scenario, with the notes [ns]. *)
Definition work_store (path : string) (ns : list note) : NoteManager :=
  {| data_file := path; notes := ns;
     categories := [("Work", ["meeting"; "deadline"])];
     keyword_weights := [] |}.

(** The score table that gives each category of [cats] the score [f] of its
    keywords, in the order of [cats]. *)
Definition score_table (f : list string -> Z) (cats : dict (list string))
  : dict Z :=
  map (fun '(c, kws) => (c, f kws)) cats.

(** The world with another list of notes, another table of weights. *)
Definition with_notes (v : list note) (w : world) : world :=
  {| self := {| data_file := data_file (self w); notes := v;
                categories := categories (self w);
                keyword_weights := keyword_weights (self w) |};
     fs := fs w; stdout := stdout w |}.

Definition with_categories (v : dict (list string)) (w : world) : world :=
  {| self := {| data_file := data_file (self w); notes := notes (self w);
                categories := v;
                keyword_weights := keyword_weights (self w) |};
     fs := fs w; stdout := stdout w |}.

Definition with_weights (v : dict Z) (w : world) : world :=
  {| self := {| data_file := data_file (self w); notes := notes (self w);
                categories := categories (self w); keyword_weights := v |};
     fs := fs w; stdout := stdout w |}.

(** The weights [update_keyword_weights] leaves: those of the loop for a
    registered category, the same weights otherwise. *)
Definition weights_after (me : NoteManager) (words : list string)
    (category : string) : dict Z :=
  if mem category (categories me)
  then bump_weights (get_or category [] (categories me)) words
         (keyword_weights me)
  else keyword_weights me.

(* ================================================================= *)
(** ** The menu *)

(** [s.split(sep)] with a separator of one character: the pieces between the
    separators, the empty ones included. *)
Fixpoint split_on (sep : ascii) (s : string) : list string :=
  match s with
  | EmptyString => [EmptyString]
  | String c r =>
      if Ascii.eqb c sep then EmptyString :: split_on sep r
      else
        match split_on sep r with
        | w :: ws => String c w :: ws
        | [] => [String c EmptyString]
        end
  end.

(** How [menu] ends: by the choice 6, by an exception of a method, or by the
    [EOFError] of [input] when no line is left to read. *)
Inductive menu_end : Type :=
| Goodbye
| Crashed (e : exn)
| EndOfInput.

(** The prompt that [input(prompt)] writes, as an entry of [stdout] of its
    own. *)
Definition show_prompt (prompt : string) (w : world) : world :=
  {| self := self w; fs := fs w; stdout := (stdout w ++ [prompt])%list |}.

(** The six [print]s at the head of the loop and the prompt of the choice. *)
Definition show_menu (w : world) : world :=
  show_prompt "Enter your choice: "
    (snd ((print (newline ++ "--- NEONOTATE ---") ;;
           print "1. Add Category" ;;
           print "2. Add Note" ;;
           print "3. View Notes" ;;
           print "4. Search Notes" ;;
           print "5. Export Notes" ;;
           print "6. Exit") w)).

(** A method called from the loop: its exception ends the menu. *)
Definition calling {A} (m : M A) (w : world)
    (k : A -> world -> menu_end * world) : menu_end * world :=
  match m w with
  | (Returned a, w') => k a w'
  | (Raised e, w') => (Crashed e, w')
  end.

Definition comma : ascii := ascii_of_nat 44.

(** The loop of [menu], reading the lines [inputs]. *)
Fixpoint menu_loop (inputs : list string) (w : world) : menu_end * world :=
  let w := show_menu w in
  match inputs with
  | [] => (EndOfInput, w)
  | choice :: rest =>
      if String.eqb choice "1" then
        let w := show_prompt "Enter Category Name: " w in
        match rest with
        | [] => (EndOfInput, w)
        | category :: rest1 =>
            let w := show_prompt "Enter keywords (separated by commas): " w in
            match rest1 with
            | [] => (EndOfInput, w)
            | keywords :: rest2 =>
                calling (add_category category (split_on comma keywords)) w
                  (fun _ w => menu_loop rest2 w)
            end
        end
      else if String.eqb choice "2" then
        let w := show_prompt "Enter note content: " w in
        match rest with
        | [] => (EndOfInput, w)
        | note_content :: rest1 =>
            calling (add_note note_content) w (fun _ w => menu_loop rest1 w)
        end
      else if String.eqb choice "3" then
        calling view_notes w (fun _ w => menu_loop rest w)
      else if String.eqb choice "4" then
        let w := show_prompt "Enter keyword to search: " w in
        match rest with
        | [] => (EndOfInput, w)
        | keyword :: rest1 =>
            calling
              (results <- search_notes keyword ;;
               for_each results (fun note =>
                 print ("Category: " ++ category note
                        ++ " | Note: " ++ content note)))
              w (fun _ w => menu_loop rest1 w)
        end
      else if String.eqb choice "5" then
        let w := show_prompt "Enter filename to export notes: " w in
        match rest with
        | [] => (EndOfInput, w)
        | filename :: rest1 =>
            calling (export_notes filename) w (fun _ w => menu_loop rest1 w)
        end
      else if String.eqb choice "6" then
        (Goodbye, snd (print "Thank you for using NEONOTATE! Goodbye!" w))
      else
        calling
          (print "Invalid choice. Please enter a number between 1 and 6.")
          w (fun _ w => menu_loop rest w)
  end.

(** [menu]: the object on its fixed data file, [load_data], then the loop.
    [None] when the loaded document leaves the typed model. *)
Definition menu (inputs : list string) (f : filesystem)
  : option (menu_end * world) :=
  match load_data (fresh "0-Smart_Notes_Categorizer/notes.json" f) with
  | Some (Returned _, w) => Some (menu_loop inputs w)
  | Some (Raised e, w) => Some (Crashed e, w)
  | None => None
  end.

(* ================================================================= *)
(** ** Further invariants of the store *)

(** Every note has a content that is not empty and is its own [strip]. *)
Definition contents_stripped (me : NoteManager) : Prop :=
  forall n, In n (notes me) ->
    is_empty (content n) = false /\ strip (content n) = content n.

(** Every category has a name and at least one keyword, and names and
    keywords are not empty and are their own [strip]. *)
Definition categories_tidy (me : NoteManager) : Prop :=
  forall c kws, In (c, kws) (categories me) ->
    is_empty c = false /\ strip c = c /\ kws <> []
    /\ forall kw, In kw kws -> is_empty kw = false /\ strip kw = kw.

(** Every weight is at least 1 and belongs to a keyword of a category. *)
Definition weights_earned (me : NoteManager) : Prop :=
  forall k v, Dict.get k (keyword_weights me) = Some v ->
    1 <= v /\ exists c kws, In (c, kws) (categories me) /\ In k kws.

(** The well-formedness of the categories and the three properties above,
    which every call keeps together. *)
Definition tidy (me : NoteManager) : Prop :=
  Dict.wf (categories me) /\ contents_stripped me
  /\ categories_tidy me /\ weights_earned me.

(** Some token of the content equals, up to case, a keyword of [kws]. *)
Definition some_token_matches (kws : list string) (note_content : string)
  : Prop :=
  exists word kw,
    In word (split note_content) /\ In kw kws /\ lower word = lower kw.

(* ================================================================= *)
(** ** [categorize_notes] on any strings *)

(** The body of [categorize_notes] once more, as the source has it, on any
    type of strings: [eqb] is [==], [lower] is [str.lower], [split] is
    [str.split()] and [others] is the string "Others".  On [string], with
    the functions of [PyStr], it is [categorize]. *)
Module Any.
Section Str.

Variables (K : Type) (eqb : K -> K -> bool) (lower : K -> K)
          (split : K -> list K) (others : K).

(** [d.get(k)] *)
Fixpoint get {V} (k : K) (d : list (K * V)) : option V :=
  match d with
  | [] => None
  | (k', v) :: r => if eqb k k' then Some v else get k r
  end.

(** [d.get(k, default)] *)
Definition get_or {V} (k : K) (default : V) (d : list (K * V)) : V :=
  match get k d with Some v => v | None => default end.

(** [d[k] = v] *)
Fixpoint set {V} (k : K) (v : V) (d : list (K * V)) : list (K * V) :=
  match d with
  | [] => [(k, v)]
  | (k', v') :: r =>
      if eqb k k' then (k, v) :: r else (k', v') :: set k v r
  end.

(** [x in l] *)
Fixpoint in_list (x : K) (l : list K) : bool :=
  match l with
  | [] => false
  | y :: r => eqb x y || in_list x r
  end.

(** [scores[category] += d] *)
Definition add_to_score (scores : list (K * Z)) (category : K) (d : Z)
  : outcome (list (K * Z)) :=
  match get category scores with
  | Some v => Returned (set category (v + d) scores)
  | None => Raised KeyError
  end.

Fixpoint score_word (weights : list (K * Z)) (word : K)
    (items : list (K * list K)) (scores : list (K * Z))
  : outcome (list (K * Z)) :=
  match items with
  | [] => Returned scores
  | (category, keywords) :: rest =>
      if in_list word (map lower keywords) then
        scores' <~ add_to_score scores category (get_or word 1 weights) ;;
        score_word weights word rest scores'
      else score_word weights word rest scores
  end.

Fixpoint score_words (weights : list (K * Z)) (cats : list (K * list K))
    (words : list K) (scores : list (K * Z)) : outcome (list (K * Z)) :=
  match words with
  | [] => Returned scores
  | word :: rest =>
      scores' <~ score_word weights word cats scores ;;
      score_words weights cats rest scores'
  end.

Fixpoint max_loop (key : K -> option Z) (maxitem : K) (maxval : option Z)
    (l : list K) : outcome K :=
  match l with
  | [] => Returned maxitem
  | item :: r =>
      let val := key item in
      gt <~ py_gt val maxval ;;
      if (gt : bool) then max_loop key item val r
      else max_loop key maxitem maxval r
  end.

Definition py_max (l : list K) (key : K -> option Z) : outcome K :=
  match l with
  | [] => Raised ValueError
  | item :: r => max_loop key item (key item) r
  end.

Definition subscript {V} (d : list (K * V)) (k : K) : outcome V :=
  match get k d with
  | Some v => Returned v
  | None => Raised KeyError
  end.

Definition categorize (cats : list (K * list K)) (weights : list (K * Z))
    (note_content : K) : outcome K :=
  let words := map lower (split note_content) in
  let scores := fold_left (fun sc c => set c 0 sc) (map fst cats) [] in
  scores <~ score_words weights cats words scores ;;
  suitable_category <~ py_max (map fst scores) (fun k => get k scores) ;;
  v <~ subscript scores suitable_category ;;
  if Z.eqb v 0 then Returned others else Returned suitable_category.

End Str.
End Any.

(* ================================================================= *)
(** ** Strings with a character above 255 *)

(** The strings over the code points below 256 and U+03D2, GREEK UPSILON
    WITH HOOK SYMBOL: an uppercase letter ([str.isupper] holds of it) that
    has no lowercase form ([str.lower] leaves it as it is) and is not
    whitespace. *)
Module Wide.

Inductive char : Type :=
| Latin1 (a : ascii)
| UpsilonHook.

Definition str : Type := list char.

Definition isspace (c : char) : bool :=
  match c with
  | Latin1 a => PyStr.isspace a
  | UpsilonHook => false
  end.

Definition isupper (c : char) : bool :=
  match c with
  | Latin1 a => PyStr.isupper a
  | UpsilonHook => true
  end.

Definition lower_char (c : char) : char :=
  match c with
  | Latin1 a => Latin1 (PyStr.lower_char a)
  | UpsilonHook => UpsilonHook
  end.

(** [s.lower()] *)
Definition lower (s : str) : str := map lower_char s.

(** Some character of [s] is an uppercase letter. *)
Definition has_upper (s : str) : bool := existsb isupper s.

Definition char_eqb (a b : char) : bool :=
  match a, b with
  | Latin1 x, Latin1 y => Ascii.eqb x y
  | UpsilonHook, UpsilonHook => true
  | _, _ => false
  end.

(** [s == t] *)
Fixpoint eqb (s t : str) : bool :=
  match s, t with
  | [], [] => true
  | a :: s', b :: t' => char_eqb a b && eqb s' t'
  | _, _ => false
  end.

Definition word_goes_on (r : str) : bool :=
  match r with
  | [] => false
  | c :: _ => negb (isspace c)
  end.

(** [s.split()] *)
Fixpoint split (s : str) : list str :=
  match s with
  | [] => []
  | c :: r =>
      if isspace c then split r
      else if word_goes_on r then
        match split r with
        | w :: ws => (c :: w) :: ws
        | [] => [[c]]
        end
      else [c] :: split r
  end.

(** A [string] as a wide string. *)
Definition of_string (s : string) : str :=
  map Latin1 (list_ascii_of_string s).

Definition others : str := of_string "Others".

(** [categorize_notes] on wide strings. *)
Definition categorize (cats : list (str * list str))
    (weights : list (str * Z)) (note_content : str) : outcome str :=
  Any.categorize str eqb lower split others cats weights note_content.

(** The string of the one character U+03D2. *)
Definition upsilon : str := [UpsilonHook].

(** Two categories: "A" with the keyword U+03D2, "B" with the keyword
    "b". *)
Definition upsilon_categories : list (str * list str) :=
  [(of_string "A", [upsilon]); (of_string "B", [of_string "b"])].

(** The content: U+03D2, a space, "b", a space, "b". *)
Definition upsilon_note : str :=
  (upsilon ++ of_string " b b")%list.

End Wide.

(* ================================================================= *)
(** * Properties *)

(** ** Strings *)

Section Strings.

Lemma isupper_lower_char (c : ascii) : isupper (lower_char c) = false.
Proof.
  destruct c as [[] [] [] [] [] [] [] []]; reflexivity.
Qed.

Lemma lower_idempotent (s : string) : lower (lower s) = lower s.
Proof.
  induction s as [|c r IH]; simpl; [reflexivity|].
  rewrite IH. f_equal.
  unfold lower_char at 1. now rewrite isupper_lower_char.
Qed.

Lemma is_empty_true (s : string) : is_empty s = true <-> s = "".
Proof. destruct s; simpl; split; congruence. Qed.

Lemma split_all_space (s : string) : all_space s = true -> split s = [].
Proof.
  induction s as [|c r IH]; simpl; [reflexivity|].
  intros H. apply andb_prop in H as [Hc Hr]. rewrite Hc. auto.
Qed.

Lemma rstrip_empty_all_space (s : string) :
  is_empty (rstrip s) = true -> all_space s = true.
Proof.
  induction s as [|c r IH]; simpl; [reflexivity|].
  destruct (isspace c); simpl.
  - destruct (is_empty (rstrip r)); simpl; [auto | discriminate].
  - discriminate.
Qed.

Lemma word_goes_on_rstrip (s : string) :
  word_goes_on (rstrip s) = word_goes_on s.
Proof.
  destruct s as [|c r]; simpl; [reflexivity|].
  destruct (isspace c) eqn:Hc; simpl.
  - destruct (is_empty (rstrip r)); simpl; [reflexivity | now rewrite Hc].
  - now rewrite Hc.
Qed.

Lemma split_lstrip (s : string) : split (lstrip s) = split s.
Proof.
  induction s as [|c r IH]; simpl; [reflexivity|].
  destruct (isspace c) eqn:Hc; [exact IH|].
  simpl. now rewrite Hc.
Qed.

Lemma split_rstrip (s : string) : split (rstrip s) = split s.
Proof.
  induction s as [|c r IH]; [reflexivity|].
  cbn [rstrip].
  destruct (isspace c) eqn:Hc; cbn [andb].
  - destruct (is_empty (rstrip r)) eqn:He.
    + simpl. rewrite Hc.
      symmetry. apply split_all_space, rstrip_empty_all_space, He.
    + simpl. rewrite Hc. exact IH.
  - simpl. rewrite Hc, word_goes_on_rstrip, IH. reflexivity.
Qed.

Lemma lstrip_decompose (s : string) :
  exists l, all_space l = true /\ s = l ++ lstrip s.
Proof.
  induction s as [|c r [l [Hl Hr]]]; [now exists ""|].
  cbn [lstrip]. destruct (isspace c) eqn:Hc.
  - exists (String c l). cbn [all_space]. rewrite Hc, Hl.
    split; [reflexivity|]. cbn. now rewrite <- Hr.
  - now exists "".
Qed.

Lemma lstrip_starts (s : string) :
  is_empty (lstrip s) = true \/ word_goes_on (lstrip s) = true.
Proof.
  induction s as [|c r IH]; [now left|].
  cbn [lstrip]. destruct (isspace c) eqn:Hc; [exact IH|].
  right. cbn [word_goes_on]. now rewrite Hc.
Qed.

Lemma rstrip_decompose (s : string) :
  exists r, all_space r = true /\ s = rstrip s ++ r.
Proof.
  induction s as [|c r0 [r [Hr E]]]; [now exists ""|].
  cbn [rstrip]. destruct (isspace c && is_empty (rstrip r0)) eqn:H.
  - apply andb_prop in H as [Hc He]. exists (String c r0).
    cbn [all_space]. rewrite Hc, (rstrip_empty_all_space r0 He).
    now split.
  - exists r. split; [exact Hr|]. cbn. now rewrite <- E.
Qed.

Lemma rstrip_ends (s : string) : ends_with_space (rstrip s) = false.
Proof.
  induction s as [|c r IH]; [reflexivity|].
  cbn [rstrip]. destruct (isspace c && is_empty (rstrip r)) eqn:H;
    [reflexivity|].
  cbn [ends_with_space]. destruct (rstrip r) as [|c' r'] eqn:E.
  - cbn [is_empty] in H. now rewrite andb_true_r in H.
  - exact IH.
Qed.

(** [strip] removes whitespace, and all of it, at both ends. *)
Lemma strip_spec (s : string) :
  exists l r,
    all_space l = true /\ all_space r = true
    /\ s = l ++ strip s ++ r
    /\ (is_empty (strip s) = true \/ word_goes_on (strip s) = true)
    /\ ends_with_space (strip s) = false.
Proof.
  destruct (lstrip_decompose s) as [l [Hl El]].
  destruct (rstrip_decompose (lstrip s)) as [r [Hr Er]].
  exists l, r. unfold strip. repeat split; try assumption.
  - now rewrite <- Er.
  - rewrite word_goes_on_rstrip.
    destruct (lstrip_starts s) as [H|H]; [left | now right].
    apply is_empty_true in H. now rewrite H.
  - apply rstrip_ends.
Qed.

(** The words of [split] are not empty and hold no whitespace. *)
Lemma split_words (s w : string) :
  In w (split s) -> is_empty w = false /\ no_space w = true.
Proof.
  revert w. induction s as [|c r IH]; intros w; cbn [split]; [intros []|].
  destruct (isspace c) eqn:Hc; [apply IH|].
  assert (Hone : is_empty (String c "") = false
                 /\ no_space (String c "") = true)
    by (cbn; now rewrite Hc).
  destruct (word_goes_on r).
  - destruct (split r) as [|w0 ws] eqn:E.
    + intros [<-|[]]. exact Hone.
    + intros [<-|H].
      * split; [reflexivity|]. cbn [no_space]. rewrite Hc.
        apply (IH w0). now left.
      * apply IH. now right.
  - intros [<-|H]; [exact Hone | now apply IH].
Qed.

(** Stripping the content first, as [add_note] does, does not change its
    words. *)
Lemma split_strip (s : string) : split (strip s) = split s.
Proof. unfold strip. now rewrite split_rstrip, split_lstrip. Qed.

Lemma startswith_spec (p s : string) :
  startswith p s = true <-> exists r, s = p ++ r.
Proof.
  revert s. induction p as [|a p IH]; intros s; simpl.
  - split; [intros _; now exists s | reflexivity].
  - destruct s as [|b s]; simpl.
    + split; [discriminate | intros [r Hr]; discriminate].
    + rewrite andb_true_iff, Ascii.eqb_eq, IH. split.
      * intros [-> [r ->]]. now exists r.
      * intros [r Hr]. injection Hr as -> ->. split; [reflexivity|].
        now exists r.
Qed.

(** [needle in hay] holds exactly when [hay] is some text, then [needle],
    then some text. *)
Lemma contains_spec (needle hay : string) :
  contains needle hay = true <->
  exists pre post, hay = pre ++ needle ++ post.
Proof.
  induction hay as [|b r IH].
  - simpl. rewrite orb_false_r, startswith_spec. split.
    + intros [x Hx]. now exists "", x.
    + intros [pre [post H]]. destruct pre; simpl in H.
      * now exists post.
      * discriminate.
  - cbn [contains]. rewrite orb_true_iff, startswith_spec, IH. split.
    + intros [[x Hx] | [pre [post H]]].
      * now exists "", x.
      * exists (String b pre), post. simpl. now rewrite H.
    + intros [pre [post H]]. destruct pre as [|a pre]; simpl in H.
      * left. now exists post.
      * right. injection H as _ H. now exists pre, post.
Qed.

Lemma in_list_spec (x : string) (l : list string) :
  in_list x l = true <-> In x l.
Proof.
  induction l as [|y r IH]; simpl.
  - split; [discriminate | tauto].
  - rewrite orb_true_iff, String.eqb_eq, IH. split; intros [H|H]; auto.
Qed.

Lemma in_list_false (x : string) (l : list string) :
  in_list x l = false <-> ~ In x l.
Proof.
  rewrite <- in_list_spec. destruct (in_list x l); split; congruence.
Qed.

Lemma count_nonneg (x : string) (l : list string) : 0 <= count x l.
Proof.
  induction l as [|y r IH]; simpl; [lia|].
  destruct (String.eqb x y); lia.
Qed.

End Strings.

(** ** Dictionaries *)

Section Dictionaries.

Context {V : Type}.
Implicit Types (d : dict V) (k : string) (v : V).

Lemma get_set k k' v d :
  Dict.get k (Dict.set k' v d)
  = if String.eqb k k' then Some v else Dict.get k d.
Proof.
  induction d as [|[k0 v0] r IH]; simpl.
  - reflexivity.
  - destruct (String.eqb k' k0) eqn:E'; simpl.
    + apply String.eqb_eq in E'. subst k0.
      destruct (String.eqb k k'); reflexivity.
    + rewrite IH. destruct (String.eqb k k0) eqn:E0; [|reflexivity].
      apply String.eqb_eq in E0. subst k0.
      destruct (String.eqb k k') eqn:E; [|reflexivity].
      apply String.eqb_eq in E. subst k'.
      rewrite String.eqb_refl in E'. discriminate.
Qed.

Lemma get_none_iff k d : Dict.get k d = None <-> ~ In k (keys d).
Proof.
  induction d as [|[k0 v0] r IH]; simpl.
  - tauto.
  - destruct (String.eqb k k0) eqn:E.
    + apply String.eqb_eq in E. subst. split; [discriminate | tauto].
    + apply String.eqb_neq in E. rewrite IH. split.
      * intros H [H0|H0]; [congruence | tauto].
      * tauto.
Qed.

Lemma mem_true_iff k d : mem k d = true <-> In k (keys d).
Proof.
  unfold mem. destruct (Dict.get k d) eqn:E.
  - split; [intros _ | reflexivity].
    destruct (in_dec string_dec k (keys d)) as [H|H]; [exact H|].
    apply get_none_iff in H. congruence.
  - split; [discriminate|]. intros H. apply get_none_iff in E. tauto.
Qed.

Lemma get_in k v d : Dict.get k d = Some v -> In (k, v) d.
Proof.
  induction d as [|[k0 v0] r IH]; simpl; [discriminate|].
  destruct (String.eqb k k0) eqn:E.
  - apply String.eqb_eq in E. intros [= ->]. subst. now left.
  - auto.
Qed.

(** Assigning to a present key keeps the keys and their order. *)
Lemma keys_set_present k v d :
  In k (keys d) -> keys (Dict.set k v d) = keys d.
Proof.
  induction d as [|[k0 v0] r IH]; simpl; [tauto|].
  destruct (String.eqb k k0) eqn:E.
  - apply String.eqb_eq in E. now subst.
  - apply String.eqb_neq in E. intros [H|H]; [congruence|].
    simpl. now rewrite IH.
Qed.

(** Assigning to a new key appends it. *)
Lemma set_absent k v d :
  Dict.get k d = None -> Dict.set k v d = (d ++ [(k, v)])%list.
Proof.
  induction d as [|[k0 v0] r IH]; simpl; [reflexivity|].
  destruct (String.eqb k k0); [discriminate|].
  intros H. now rewrite IH.
Qed.

Lemma keys_set_incl k k' v d :
  In k (keys d) -> In k (keys (Dict.set k' v d)).
Proof.
  induction d as [|[k0 v0] r IH]; simpl; [tauto|].
  destruct (String.eqb k' k0) eqn:E; simpl.
  - apply String.eqb_eq in E. subst. tauto.
  - intros [H|H]; auto.
Qed.

Lemma keys_set_inv k k' v d :
  In k (keys (Dict.set k' v d)) -> k = k' \/ In k (keys d).
Proof.
  induction d as [|[k0 v0] r IH]; simpl.
  - intros [H|[]]. now left.
  - destruct (String.eqb k' k0) eqn:E; simpl.
    + intros [H|H]; auto.
    + intros [H|H]; auto. destruct (IH H); auto.
Qed.

(** In a well-formed dictionary an entry is found under its key and
    assignment replaces it in place. *)
Lemma get_middle k v (d1 d2 : dict V) :
  ~ In k (keys d1) -> Dict.get k (d1 ++ (k, v) :: d2)%list = Some v.
Proof.
  induction d1 as [|[k0 v0] r IH]; simpl.
  - now rewrite String.eqb_refl.
  - intros H. destruct (String.eqb k k0) eqn:E.
    + apply String.eqb_eq in E. subst. tauto.
    + apply IH. tauto.
Qed.

Lemma set_middle k v v' (d1 d2 : dict V) :
  ~ In k (keys d1) ->
  Dict.set k v' (d1 ++ (k, v) :: d2)%list = (d1 ++ (k, v') :: d2)%list.
Proof.
  induction d1 as [|[k0 v0] r IH]; simpl.
  - now rewrite String.eqb_refl.
  - intros H. destruct (String.eqb k k0) eqn:E.
    + apply String.eqb_eq in E. subst. tauto.
    + rewrite IH; tauto.
Qed.

Lemma wf_set k v d : Dict.wf d -> Dict.wf (Dict.set k v d).
Proof.
  unfold Dict.wf. intros H.
  destruct (Dict.get k d) eqn:E.
  - rewrite keys_set_present; [exact H|].
    destruct (in_dec string_dec k (keys d)) as [Hi|Hi]; [exact Hi|].
    apply get_none_iff in Hi. congruence.
  - rewrite set_absent by exact E. unfold keys. rewrite map_app. simpl.
    apply NoDup_app; [exact H | repeat constructor; simpl; tauto |].
    intros x Hx [<-|[]]. apply get_none_iff in E. tauto.
Qed.

End Dictionaries.

(** ** The scores of [categorize_notes] *)

Section Scores.

Variable weights : dict Z.

Lemma keys_score_table f cats : keys (score_table f cats) = keys cats.
Proof.
  unfold score_table, keys. rewrite map_map.
  apply map_ext. now intros [c kws].
Qed.

Lemma score_table_ext f g cats :
  (forall kws, f kws = g kws) -> score_table f cats = score_table g cats.
Proof.
  intros H. unfold score_table. apply map_ext.
  intros [c kws]. now rewrite H.
Qed.

Lemma get_score_table f cats c kws :
  Dict.wf cats -> In (c, kws) cats ->
  Dict.get c (score_table f cats) = Some (f kws).
Proof.
  unfold Dict.wf. induction cats as [|[c0 kws0] r IH]; simpl; [tauto|].
  intros Hwf [H|H].
  - injection H as -> ->. now rewrite String.eqb_refl.
  - inversion Hwf as [|? ? Hn Hr]; subst.
    destruct (String.eqb c c0) eqn:E; [|auto].
    apply String.eqb_eq in E. subst c0.
    exfalso. apply Hn. change c with (fst (c, kws)). now apply in_map.
Qed.

(** The dictionary comprehension gives every category the score 0. *)
Lemma initial_scores_from (ks : list string) (acc : dict Z) :
  NoDup (keys acc ++ ks) ->
  fold_left (fun sc c => Dict.set c 0 sc) ks acc
  = (acc ++ map (fun c => (c, 0)) ks)%list.
Proof.
  revert acc. induction ks as [|k r IH]; intros acc H; simpl.
  - now rewrite app_nil_r.
  - rewrite set_absent.
    + rewrite IH.
      * now rewrite <- app_assoc.
      * unfold keys. rewrite map_app. simpl. now rewrite <- app_assoc.
    + apply get_none_iff. apply NoDup_remove_2 in H.
      intros Hin. apply H. apply in_or_app. now left.
Qed.

Lemma initial_scores cats :
  Dict.wf cats ->
  fold_left (fun sc c => Dict.set c 0 sc) (keys cats) []
  = score_table (fun _ => 0) cats.
Proof.
  intros H. rewrite initial_scores_from by exact H. simpl.
  unfold score_table, keys. rewrite map_map.
  apply map_ext. now intros [c kws].
Qed.

(** One pass of the inner loop adds to each category what the word is
    worth for it. *)
Lemma score_word_table word f todo (done : dict Z) :
  NoDup (keys done ++ keys todo) ->
  score_word weights word todo (done ++ score_table f todo)%list
  = Returned
      (done
       ++ score_table (fun kws => f kws + word_score weights kws word) todo
      )%list.
Proof.
  revert done. induction todo as [|[c kws] rest IH]; intros done H.
  - reflexivity.
  - assert (Hc : ~ In c (keys done)).
    { simpl in H. apply NoDup_remove_2 in H.
      intros Hin. apply H. apply in_or_app. now left. }
    assert (H' : forall v : Z,
               NoDup (keys (done ++ [(c, v)])%list ++ keys rest)).
    { intros v. unfold keys at 1. rewrite map_app. simpl.
      now rewrite <- app_assoc. }
    cbn [score_word score_table map]. unfold word_score at 1.
    destruct (in_list word (map lower kws)).
    + unfold add_to_score. rewrite get_middle by exact Hc.
      rewrite set_middle by exact Hc. cbn [obind].
      specialize (IH (done ++ [(c, f kws + get_or word 1 weights)])%list
                    (H' _)).
      rewrite <- !app_assoc in IH. exact IH.
    + rewrite Z.add_0_r.
      specialize (IH (done ++ [(c, f kws)])%list (H' _)).
      rewrite <- !app_assoc in IH. exact IH.
Qed.

(** The two loops compute, for each category, the sum over the words of
    what each word is worth for it; they never raise. *)
Lemma score_words_table cats words f :
  Dict.wf cats ->
  score_words weights cats words (score_table f cats)
  = Returned
      (score_table (fun kws => f kws + match_score weights words kws) cats).
Proof.
  intros Hwf. revert f. induction words as [|word rest IH]; intros f.
  - simpl. f_equal. apply score_table_ext. intros kws. lia.
  - cbn [score_words].
    pose proof (score_word_table word f cats [] Hwf) as E.
    cbn [app] in E. rewrite E. cbn [obind]. rewrite IH. f_equal.
    apply score_table_ext. intros kws. simpl. lia.
Qed.

Lemma scores_of_categories cats words :
  Dict.wf cats ->
  score_words weights cats words
    (fold_left (fun sc c => Dict.set c 0 sc) (keys cats) [])
  = Returned (score_table (match_score weights words) cats).
Proof.
  intros Hwf. rewrite initial_scores, score_words_table by exact Hwf.
  f_equal.
Qed.

End Scores.

(** ** The maximum of the scores *)

Section Maximum.

Variable scores : dict Z.

Lemma get_present k :
  In k (keys scores) -> Dict.get k scores = Some (get_or k 0 scores).
Proof.
  intros H. unfold get_or. destruct (Dict.get k scores) eqn:E.
  - reflexivity.
  - apply get_none_iff in E. tauto.
Qed.

(** A running maximum that nothing exceeds is returned. *)
Lemma max_loop_keeps best m l :
  (forall k, In k l -> In k (keys scores)) ->
  (forall k, In k l -> get_or k 0 scores <= m) ->
  max_loop (fun k => Dict.get k scores) best (Some m) l = Returned best.
Proof.
  induction l as [|k r IH]; intros Hin Hle; [reflexivity|].
  cbn [max_loop]. rewrite (get_present k) by (apply Hin; now left).
  cbn [py_gt obind].
  assert (Hk : get_or k 0 scores <= m) by (apply Hle; now left).
  apply Z.ltb_ge in Hk. rewrite Hk.
  apply IH; intros; [apply Hin | apply Hle]; now right.
Qed.

(** The first item whose value exceeds all those before it and is not
    exceeded after it is returned. *)
Lemma max_loop_first best m before c after :
  (forall k, In k (before ++ c :: after)%list -> In k (keys scores)) ->
  m < get_or c 0 scores ->
  (forall k, In k before -> get_or k 0 scores < get_or c 0 scores) ->
  (forall k, In k after -> get_or k 0 scores <= get_or c 0 scores) ->
  max_loop (fun k => Dict.get k scores) best (Some m)
    (before ++ c :: after)%list
  = Returned c.
Proof.
  revert best m.
  induction before as [|k r IH]; intros best m Hin Hm Hbefore Hafter.
  - cbn [app max_loop]. rewrite (get_present c) by (apply Hin; now left).
    cbn [py_gt obind]. apply Z.ltb_lt in Hm. rewrite Hm.
    apply max_loop_keeps; [|exact Hafter].
    intros k Hk. apply Hin. now right.
  - cbn [app max_loop].
    rewrite (get_present k) by (apply Hin; now left).
    cbn [py_gt obind].
    assert (Hin' : forall k0, In k0 (r ++ c :: after)%list ->
                              In k0 (keys scores))
      by (intros; apply Hin; now right).
    assert (Hb' : forall k0, In k0 r ->
                             get_or k0 0 scores < get_or c 0 scores)
      by (intros; apply Hbefore; now right).
    destruct (Z.ltb m (get_or k 0 scores)).
    + apply IH; auto. apply Hbefore. now left.
    + apply IH; auto.
Qed.

(** [max] returns the first key of maximal value. *)
Lemma py_max_first before c after :
  keys scores = (before ++ c :: after)%list ->
  (forall k, In k before -> get_or k 0 scores < get_or c 0 scores) ->
  (forall k, In k after -> get_or k 0 scores <= get_or c 0 scores) ->
  py_max (keys scores) (fun k => Dict.get k scores) = Returned c.
Proof.
  intros Hk Hbefore Hafter.
  assert (Hin : forall k, In k (before ++ c :: after)%list ->
                          In k (keys scores))
    by (intros k; now rewrite Hk).
  rewrite Hk. destruct before as [|b bs]; cbn [app py_max].
  - rewrite (get_present c) by (apply Hin; now left).
    apply max_loop_keeps; [|exact Hafter].
    intros k H. apply Hin. now right.
  - rewrite (get_present b) by (apply Hin; now left).
    apply max_loop_first.
    + intros k H. apply Hin. now right.
    + apply Hbefore. now left.
    + intros k H. apply Hbefore. now right.
    + exact Hafter.
Qed.

Lemma max_loop_member key best mv l c :
  max_loop key best mv l = Returned c -> c = best \/ In c l.
Proof.
  revert best mv. induction l as [|k r IH]; intros best mv; cbn [max_loop].
  - intros [= ->]. now left.
  - destruct (py_gt (key k) mv) as [[|]|e]; cbn [obind]; intros H.
    + apply IH in H as [->|H]; right; [now left | now right].
    + apply IH in H as [->|H]; [now left | right; now right].
    + discriminate.
Qed.

Lemma py_max_member key l c : py_max l key = Returned c -> In c l.
Proof.
  destruct l as [|k r]; cbn [py_max]; [discriminate|].
  intros H. apply max_loop_member in H as [->|H]; [now left | now right].
Qed.

(** Over the keys of the table itself the loop of [max] does not raise. *)
Lemma max_loop_returns best m l :
  (forall k, In k l -> In k (keys scores)) ->
  exists c, max_loop (fun k => Dict.get k scores) best (Some m) l
            = Returned c.
Proof.
  revert best m. induction l as [|k r IH]; intros best m Hin.
  - now exists best.
  - cbn [max_loop]. rewrite (get_present k) by (apply Hin; now left).
    cbn [py_gt obind].
    destruct (Z.ltb m (get_or k 0 scores));
      apply IH; intros; apply Hin; now right.
Qed.

Lemma py_max_returns :
  scores <> [] ->
  exists c, py_max (keys scores) (fun k => Dict.get k scores) = Returned c.
Proof.
  destruct scores as [|[k v] r] eqn:E; [congruence|]. intros _.
  rewrite <- E. assert (Hk : keys scores = k :: keys r) by now rewrite E.
  rewrite Hk. cbn [py_max].
  rewrite (get_present k) by (rewrite Hk; now left).
  apply max_loop_returns. intros k0 H. rewrite Hk. now right.
Qed.

End Maximum.

(** ** [categorize_notes] *)

Section Categorize.

Variable weights : dict Z.

Lemma match_score_no_match words kws :
  (forall word, In word words -> in_list word (map lower kws) = false) ->
  match_score weights words kws = 0.
Proof.
  induction words as [|word rest IH]; intros H; simpl; [reflexivity|].
  unfold word_score. rewrite (H word) by now left.
  rewrite IH; [reflexivity|]. intros; apply H; now right.
Qed.

Lemma no_token_matches_score cats note_content c kws :
  no_token_matches cats note_content -> In (c, kws) cats ->
  match_score weights (map lower (split note_content)) kws = 0.
Proof.
  intros Hno Hin. apply match_score_no_match.
  intros word Hw. apply in_map_iff in Hw as [tok [<- Htok]].
  apply in_list_false. intros Hk.
  apply in_map_iff in Hk as [kw [Heq Hkw]].
  now apply (Hno tok c kws kw).
Qed.

(** On a well-formed table of categories the scoring never raises, and
    [categorize_notes] takes the maximum over the table of the
    [match_score]s. *)
Lemma categorize_table cats note_content :
  Dict.wf cats ->
  categorize cats weights note_content
  = let scores :=
      score_table (match_score weights (map lower (split note_content)))
        cats in
    suitable_category <~
      py_max (keys scores) (fun k => Dict.get k scores) ;;
    v <~ subscript scores suitable_category ;;
    if Z.eqb v 0 then Returned "Others" else Returned suitable_category.
Proof.
  intros Hwf. unfold categorize.
  now rewrite scores_of_categories by exact Hwf.
Qed.

Lemma score_words_no_category words :
  score_words weights [] words [] = Returned [].
Proof. induction words as [|word rest IH]; simpl; auto. Qed.

(** Without any category, [max] is applied to an empty dictionary. *)
Lemma categorize_no_category note_content :
  categorize [] weights note_content = Raised ValueError.
Proof.
  unfold categorize. cbn [keys map fold_left].
  now rewrite score_words_no_category.
Qed.

(** With a category, [categorize_notes] returns. *)
Lemma categorize_returns cats note_content :
  Dict.wf cats -> cats <> [] ->
  exists c, categorize cats weights note_content = Returned c.
Proof.
  intros Hwf Hne. rewrite categorize_table by exact Hwf. cbv zeta.
  set (scores := score_table _ cats).
  assert (Hs : scores <> []).
  { unfold scores, score_table. destruct cats; [congruence | discriminate]. }
  destruct (py_max_returns scores Hs) as [c Hc]. rewrite Hc. cbn [obind].
  apply py_max_member in Hc. unfold subscript.
  rewrite (get_present scores c Hc). cbn [obind].
  destruct (Z.eqb _ 0); eauto.
Qed.

(** What it returns is a registered category or "Others". *)
Lemma categorize_known cats note_content c :
  Dict.wf cats ->
  categorize cats weights note_content = Returned c ->
  c = "Others" \/ In c (keys cats).
Proof.
  intros Hwf. rewrite categorize_table by exact Hwf. cbv zeta.
  set (scores := score_table _ cats).
  destruct (py_max _ _) as [s|e] eqn:Hs; cbn [obind]; [|discriminate].
  apply py_max_member in Hs. unfold subscript.
  rewrite (get_present scores s Hs). cbn [obind].
  unfold scores in Hs. rewrite keys_score_table in Hs.
  destruct (Z.eqb _ 0); intros [= <-]; auto.
Qed.

(** When no token matches a keyword and a category is registered, the
    result is "Others". *)
Lemma categorize_no_match_others cats note_content :
  Dict.wf cats -> cats <> [] ->
  no_token_matches cats note_content ->
  categorize cats weights note_content = Returned "Others".
Proof.
  intros Hwf Hne Hno. rewrite categorize_table by exact Hwf. cbv zeta.
  destruct cats as [|[c0 kws0] rest]; [congruence|].
  remember ((c0, kws0) :: rest) as cs eqn:Ec.
  set (scores := score_table _ cs).
  assert (Hzero : forall k, In k (keys cs) -> get_or k 0 scores = 0).
  { intros k Hk. apply in_map_iff in Hk as [[c kws] [<- Hin]].
    unfold get_or, scores.
    rewrite (get_score_table _ cs c kws Hwf Hin).
    now apply (no_token_matches_score cs note_content c kws). }
  assert (Hk : keys scores = ([] ++ c0 :: keys rest)%list).
  { unfold scores. rewrite keys_score_table. now rewrite Ec. }
  assert (H0 : In c0 (keys cs)) by (rewrite Ec; now left).
  rewrite (py_max_first scores [] c0 (keys rest) Hk).
  - cbn [obind]. unfold subscript.
    rewrite get_present by (rewrite Hk; now left).
    cbn [obind]. now rewrite (Hzero c0 H0).
  - intros k [].
  - intros k H. rewrite (Hzero c0 H0), Hzero; [lia|].
    rewrite Ec. now right.
Qed.

End Categorize.

(** ** The methods, run on a world *)

Section Methods.

Implicit Types (w : world).

Lemma save_data_ok w :
  open_w_error (fs w) (data_file (self w)) = None ->
  save_data w
  = (Returned tt,
     {| self := self w;
        fs := fs_write (data_file (self w)) (Json (document (self w)))
                (fs w);
        stdout := (stdout w ++ ["Data saved successfully!"])%list |}).
Proof.
  intros H. unfold save_data, bind, get_self, write_json, print.
  now rewrite H.
Qed.

Lemma save_data_error w e :
  open_w_error (fs w) (data_file (self w)) = Some e ->
  save_data w
  = (Returned tt,
     {| self := self w; fs := fs w;
        stdout := (stdout w ++ [("Error saving data: " ++ e)%string])%list |}).
Proof.
  intros H. unfold save_data, bind, get_self, write_json, print.
  now rewrite H.
Qed.

(** [save_data] returns and leaves the object as it is. *)
Lemma save_data_self w :
  fst (save_data w) = Returned tt /\ self (snd (save_data w)) = self w.
Proof.
  destruct (open_w_error (fs w) (data_file (self w))) as [e|] eqn:E.
  - now rewrite (save_data_error w e E).
  - now rewrite (save_data_ok w E).
Qed.

(** The loop of [update_keyword_weights] changes the weights only. *)
Lemma update_loop category words w :
  for_each words
    (fun word =>
       me <- get_self ;;
       if in_list word (get_or category [] (categories me))
       then set_keyword_weights
              (Dict.set word (get_or word 0 (keyword_weights me) + 1)
                 (keyword_weights me))
       else ret tt) w
  = (Returned tt,
     with_weights
       (bump_weights (get_or category [] (categories (self w))) words
          (keyword_weights (self w))) w).
Proof.
  revert w. induction words as [|word rest IH]; intros w.
  - destruct w as [[df ns cs ws] f out]. reflexivity.
  - cbn [for_each]. unfold bind at 1. unfold bind at 1.
    cbn [get_self].
    destruct (in_list word (get_or category [] (categories (self w))))
      eqn:E.
    + unfold set_keyword_weights, bind, get_self, put_self.
      rewrite IH. cbn [self categories keyword_weights].
      unfold bump_weights. cbn [fold_left]. rewrite E.
      reflexivity.
    + unfold ret. rewrite IH.
      unfold bump_weights. cbn [fold_left]. rewrite E. reflexivity.
Qed.

Lemma update_keyword_weights_unknown words category w :
  mem category (categories (self w)) = false ->
  update_keyword_weights words category w
  = print ("Error: Category '" ++ category ++ "' does not exist.") w.
Proof.
  intros H. unfold update_keyword_weights, bind at 1. cbn [get_self].
  now rewrite H.
Qed.

Lemma update_keyword_weights_known words category w :
  mem category (categories (self w)) = true ->
  update_keyword_weights words category w
  = save_data
      (with_weights
         (bump_weights (get_or category [] (categories (self w))) words
            (keyword_weights (self w))) w).
Proof.
  intros H. unfold update_keyword_weights, bind at 1. cbn [get_self].
  rewrite H. cbn [negb]. unfold bind at 1. now rewrite update_loop.
Qed.

Lemma update_keyword_weights_self words category w :
  fst (update_keyword_weights words category w) = Returned tt
  /\ self (snd (update_keyword_weights words category w))
     = self (with_weights (weights_after (self w) words category) w).
Proof.
  unfold weights_after.
  destruct (mem category (categories (self w))) eqn:E.
  - rewrite update_keyword_weights_known by exact E.
    destruct (save_data_self
                (with_weights
                   (bump_weights (get_or category [] (categories (self w)))
                      words (keyword_weights (self w))) w)) as [H1 H2].
    now rewrite H1, H2.
  - rewrite update_keyword_weights_unknown by exact E.
    destruct w as [[df ns cs ws] f out]. split; reflexivity.
Qed.

Lemma add_note_empty s w :
  is_empty (strip s) = true ->
  add_note s w = print "Error: Note content cannot be empty." w.
Proof. intros H. unfold add_note. now rewrite H. Qed.

(** An exception of [categorize_notes] leaves [add_note] before anything
    is changed. *)
Lemma add_note_raises s w e :
  is_empty (strip s) = false ->
  categorize (categories (self w)) (keyword_weights (self w)) (strip s)
  = Raised e ->
  add_note s w = (Raised e, w).
Proof.
  intros Hs Hc. unfold add_note. rewrite Hs.
  unfold bind at 1. unfold categorize_notes, bind, get_self, lift.
  now rewrite Hc.
Qed.

(** Otherwise [add_note] returns, with the note appended and the weights
    of [update_keyword_weights]. *)
Lemma add_note_returns s w c :
  is_empty (strip s) = false ->
  categorize (categories (self w)) (keyword_weights (self w)) (strip s)
  = Returned c ->
  exists w',
    add_note s w = (Returned tt, w')
    /\ self w'
       = {| data_file := data_file (self w);
            notes := (notes (self w)
                      ++ [{| content := strip s; category := c |}])%list;
            categories := categories (self w);
            keyword_weights :=
              weights_after (self w) (split (strip s)) c |}.
Proof.
  intros Hs Hc. unfold add_note. rewrite Hs.
  unfold bind at 1. unfold categorize_notes at 1.
  unfold bind at 1. cbn [get_self lift]. rewrite Hc.
  unfold bind at 1. cbn [get_self].
  unfold bind at 1. unfold set_notes at 1, bind at 1.
  cbn [get_self put_self].
  set (w1 := {| self := _; fs := fs w; stdout := stdout w |}).
  unfold bind at 1.
  destruct (update_keyword_weights_self (split (strip s)) c w1)
    as [H1 H2].
  destruct (update_keyword_weights (split (strip s)) c w1) as [o w2].
  cbn [fst snd] in H1, H2. subst o.
  unfold bind at 1.
  destruct (save_data_self w2) as [H3 H4].
  destruct (save_data w2) as [o w3]. cbn [fst snd] in H3, H4. subst o.
  cbn [print]. eexists. split; [reflexivity|].
  cbn [self]. rewrite H4, H2. reflexivity.
Qed.

Lemma add_category_ignored_name name keywords w :
  is_empty (strip name) = true ->
  add_category name keywords w
  = print "Error: Category name cannot be empty." w.
Proof. intros H. unfold add_category. now rewrite H. Qed.

(** A successful [add_category]: the new entry, then [save_data], then the
    confirmation. *)
Lemma add_category_added name keywords kw kws w :
  is_empty (strip name) = false ->
  map strip (filter (fun k => negb (is_empty (strip k))) keywords)
  = kw :: kws ->
  mem (strip name) (categories (self w)) = false ->
  add_category name keywords w
  = (save_data ;;
     print ("Category '" ++ strip name
            ++ "' added successfully with keywords: "
            ++ join ", " (kw :: kws)))
      (with_categories
         (Dict.set (strip name) (kw :: kws) (categories (self w))) w).
Proof.
  intros Hn Hk Hm. unfold add_category. rewrite Hn, Hk.
  unfold bind at 1. cbn [get_self]. rewrite Hm.
  unfold bind at 1. reflexivity.
Qed.

(** [add_category] always returns; it leaves the notes and the weights,
    and the categories either as they were or with one more entry. *)
Lemma add_category_self name keywords w :
  exists w',
    add_category name keywords w = (Returned tt, w')
    /\ (self w' = self w
        \/ exists kws,
             mem (strip name) (categories (self w)) = false
             /\ self w'
                = self (with_categories
                          (Dict.set (strip name) kws (categories (self w)))
                          w)).
Proof.
  destruct (is_empty (strip name)) eqn:Hn.
  - rewrite add_category_ignored_name by exact Hn.
    eexists. split; [reflexivity|]. now left.
  - destruct (map strip
                (filter (fun k => negb (is_empty (strip k))) keywords))
      as [|kw kws] eqn:Hk.
    + unfold add_category. rewrite Hn, Hk.
      eexists. split; [reflexivity|]. now left.
    + destruct (mem (strip name) (categories (self w))) eqn:Hm.
      * unfold add_category. rewrite Hn, Hk.
        unfold bind. cbn [get_self]. rewrite Hm.
        eexists. split; [reflexivity|]. now left.
      * rewrite (add_category_added name keywords kw kws w Hn Hk Hm).
        set (w1 := with_categories _ w).
        unfold bind.
        destruct (save_data_self w1) as [H1 H2].
        destruct (save_data w1) as [o w2]. cbn [fst snd] in H1, H2.
        subst o. cbn [print]. eexists. split; [reflexivity|].
        right. exists (kw :: kws). split; [reflexivity | exact H2].
Qed.

End Methods.

(** ** Categorization: exceptions, the example, ties, notes without match *)

Section Categorization.

(** With a category registered, [add_note] returns. *)
Lemma add_note_with_category_returns s w :
  Dict.wf (categories (self w)) -> categories (self w) <> [] ->
  exists w', add_note s w = (Returned tt, w').
Proof.
  intros Hwf Hne. destruct (is_empty (strip s)) eqn:Hs.
  - rewrite add_note_empty by exact Hs. eexists. reflexivity.
  - destruct (categorize_returns (keyword_weights (self w))
                (categories (self w)) (strip s) Hwf Hne) as [c Hc].
    destruct (add_note_returns s w c Hs Hc) as [w' [E _]]. now exists w'.
Qed.

Lemma bump_weights_no_match kws words weights :
  (forall word, In word words -> in_list word kws = false) ->
  bump_weights kws words weights = weights.
Proof.
  revert weights. induction words as [|word rest IH]; intros weights H.
  - reflexivity.
  - unfold bump_weights. cbn [fold_left]. rewrite (H word) by now left.
    apply IH. intros; apply H; now right.
Qed.

(** Where no token matches a keyword, [add_note] leaves the weights as
    they are, whatever it does otherwise. *)
Lemma add_note_no_match_weights s w :
  no_token_matches (categories (self w)) s ->
  keyword_weights (self (snd (add_note s w))) = keyword_weights (self w).
Proof.
  intros Hno. destruct (is_empty (strip s)) eqn:Hs.
  - now rewrite add_note_empty by exact Hs.
  - destruct (categorize (categories (self w)) (keyword_weights (self w))
                (strip s)) as [c|e] eqn:Hc.
    + destruct (add_note_returns s w c Hs Hc) as [w' [-> Hself]].
      cbn [snd]. rewrite Hself. cbn [keyword_weights].
      unfold weights_after.
      destruct (mem c (categories (self w))); [|reflexivity].
      apply bump_weights_no_match. intros word Hw.
      rewrite split_strip in Hw. apply in_list_false. intros Hin.
      unfold get_or in Hin.
      destruct (Dict.get c (categories (self w))) as [kws|] eqn:Hg;
        [|contradiction].
      apply get_in in Hg. now apply (Hno word c kws word).
    + now rewrite (add_note_raises s w e Hs Hc).
Qed.

(** C1 (the code departs from the claim): with no category registered,
    [categorize_notes] raises [ValueError], from [max] on an empty
    dictionary, and so does [add_note] on the content "hello"; nothing is
    printed and nothing is changed. *)
Theorem add_note_without_category_raises :
  forall (path : string) (f : filesystem) (s : string),
    categorize_notes s (fresh path f) = (Raised ValueError, fresh path f)
    /\ add_note "hello" (fresh path f) = (Raised ValueError, fresh path f).
Proof.
  intros path f s. split.
  - unfold categorize_notes, bind, get_self, lift. cbn [fresh self init
      categories keyword_weights].
    now rewrite categorize_no_category.
  - apply add_note_raises; [reflexivity|].
    apply categorize_no_category.
Qed.

(** C2: in the store with the one category "Work" of keywords "meeting"
    and "deadline" and without weights, [add_note] files "Schedule a
    meeting tomorrow" under "Work" and gives "meeting" the weight 1; a
    second [add_note] files "Another meeting today" under "Work" and
    gives "meeting" the weight 2. *)
Theorem example_scenario :
  forall (path : string) (ns : list note) (f : filesystem)
         (out : list string),
  exists w1 w2,
    add_note "Schedule a meeting tomorrow"
      {| self := work_store path ns; fs := f; stdout := out |}
    = (Returned tt, w1)
    /\ notes (self w1)
       = (ns ++ [{| content := "Schedule a meeting tomorrow";
                    category := "Work" |}])%list
    /\ keyword_weights (self w1) = [("meeting", 1)]
    /\ add_note "Another meeting today" w1 = (Returned tt, w2)
    /\ notes (self w2)
       = (ns ++ [{| content := "Schedule a meeting tomorrow";
                    category := "Work" |};
                 {| content := "Another meeting today";
                    category := "Work" |}])%list
    /\ keyword_weights (self w2) = [("meeting", 2)].
Proof.
  intros path ns f out.
  set (w0 := {| self := work_store path ns; fs := f; stdout := out |}).
  destruct (add_note_returns "Schedule a meeting tomorrow" w0 "Work")
    as [w1 [E1 S1]]; [reflexivity | reflexivity |].
  assert (C1 : categories (self w1) = [("Work", ["meeting"; "deadline"])])
    by now rewrite S1.
  assert (K1 : keyword_weights (self w1) = [("meeting", 1)])
    by now rewrite S1.
  destruct (add_note_returns "Another meeting today" w1 "Work")
    as [w2 [E2 S2]]; [reflexivity | now rewrite C1, K1 |].
  exists w1, w2. repeat split.
  - exact E1.
  - now rewrite S1.
  - exact K1.
  - exact E2.
  - rewrite S2, S1. cbn [notes]. now rewrite <- app_assoc.
  - rewrite S2. cbn [keyword_weights]. unfold weights_after.
    now rewrite C1, K1.
Qed.

(** C3: on well-formed categories, the first category, in insertion
    order, whose score is positive, greater than every score before it and
    not less than any score after it, is the one [categorize_notes]
    returns; among categories that tie for the maximum this is the first.
    The score of a category is the [match_score] of its keywords. *)
Theorem categorize_first_maximum :
  forall (cats : dict (list string)) (weights : dict Z)
         (note_content : string)
         (before after : dict (list string))
         (c : string) (kws : list string),
    Dict.wf cats ->
    cats = (before ++ (c, kws) :: after)%list ->
    let score :=
      match_score weights (map lower (split note_content)) in
    0 < score kws ->
    (forall c' kws', In (c', kws') before -> score kws' < score kws) ->
    (forall c' kws', In (c', kws') after -> score kws' <= score kws) ->
    categorize cats weights note_content = Returned c.
Proof.
  intros cats weights note_content before after c kws Hwf Hcats score
    Hpos Hbefore Hafter.
  rewrite categorize_table by exact Hwf. cbv zeta. fold score.
  set (scores := score_table score cats).
  assert (Hval : forall c' kws', In (c', kws') cats ->
                                 get_or c' 0 scores = score kws').
  { intros c' kws' Hin. unfold get_or, scores.
    now rewrite (get_score_table score cats c' kws' Hwf Hin). }
  assert (Hc : get_or c 0 scores = score kws).
  { apply Hval. rewrite Hcats. apply in_or_app. right. now left. }
  assert (Hk : keys scores = (keys before ++ c :: keys after)%list).
  { unfold scores. rewrite keys_score_table, Hcats.
    unfold keys. now rewrite map_app. }
  rewrite (py_max_first scores (keys before) c (keys after) Hk).
  - cbn [obind]. unfold subscript.
    rewrite get_present by (rewrite Hk; apply in_or_app; right; now left).
    cbn [obind]. rewrite Hc.
    destruct (Z.eqb_spec (score kws) 0); [lia | reflexivity].
  - intros k Hin. apply in_map_iff in Hin as [[c' kws'] [<- Hin]].
    cbn [fst]. rewrite Hc, (Hval c' kws').
    + now apply (Hbefore c' kws').
    + rewrite Hcats. apply in_or_app. now left.
  - intros k Hin. apply in_map_iff in Hin as [[c' kws'] [<- Hin]].
    cbn [fst]. rewrite Hc, (Hval c' kws').
    + now apply (Hafter c' kws').
    + rewrite Hcats. apply in_or_app. right. now right.
Qed.

(** C4 (the code departs from the claim): in the store without
    categories no token of any content matches a keyword, and yet
    [categorize_notes] does not return "Others": it raises
    [ValueError]. *)
Theorem categorize_without_category_not_others :
  forall (path : string) (f : filesystem) (s : string),
    no_token_matches (categories (self (fresh path f))) s
    /\ categorize_notes s (fresh path f) = (Raised ValueError, fresh path f)
    /\ fst (categorize_notes s (fresh path f)) <> Returned "Others".
Proof.
  intros path f s.
  assert (H : categorize_notes s (fresh path f)
              = (Raised ValueError, fresh path f)).
  { unfold categorize_notes, bind, get_self, lift.
    cbn [fresh self init categories keyword_weights].
    now rewrite categorize_no_category. }
  split; [|split].
  - intros word c kws kw _ [].
  - exact H.
  - rewrite H. discriminate.
Qed.

End Categorization.

(** ** [update_keyword_weights] *)

Section Weights.

Lemma bump_weights_cons kws word rest weights :
  bump_weights kws (word :: rest) weights
  = bump_weights kws rest
      (if in_list word kws
       then Dict.set word (get_or word 0 weights + 1) weights
       else weights).
Proof. reflexivity. Qed.

(** After the loop a key has its old weight, or 0, plus the number of
    times it occurs among the words, if it is a keyword that occurs; and
    what it had before, if not. *)
Lemma get_bump_weights kws words weights k :
  Dict.get k (bump_weights kws words weights)
  = if in_list k kws && Z.ltb 0 (count k words)
    then Some (get_or k 0 weights + count k words)
    else Dict.get k weights.
Proof.
  revert weights. induction words as [|word rest IH]; intros weights.
  - cbn [count]. now rewrite andb_false_r.
  - rewrite bump_weights_cons.
    set (weights' := if in_list word kws
                     then Dict.set word (get_or word 0 weights + 1) weights
                     else weights).
    rewrite IH. cbn [count]. pose proof (count_nonneg k rest) as Hn.
    destruct (String.eqb k word) eqn:E.
    + apply String.eqb_eq in E. subst word. unfold weights'.
      destruct (in_list k kws) eqn:Hk; cbn [andb]; [|reflexivity].
      unfold get_or. rewrite get_set, String.eqb_refl.
      destruct (Z.ltb_spec 0 (count k rest));
        destruct (Z.ltb_spec 0 (1 + count k rest)); try lia;
        f_equal; lia.
    + assert (Hg : Dict.get k weights' = Dict.get k weights).
      { unfold weights'. destruct (in_list word kws); [|reflexivity].
        now rewrite get_set, E. }
      replace (get_or k 0 weights') with (get_or k 0 weights)
        by (unfold get_or; now rewrite Hg).
      rewrite Hg. cbn [Z.add]. reflexivity.
Qed.

(** C5: for a category that is not registered, "Others" included,
    [update_keyword_weights] prints the error and changes nothing; for a
    registered category it returns with the notes and the categories as
    they were, and each key has afterwards its old weight, or 0 where it
    had none, plus one for every token equal to it, if the key is one of
    the category's keywords and some token equals it, and what it had
    before otherwise. *)
Theorem update_keyword_weights_spec :
  forall (words : list string) (category : string) (w : world),
    (mem category (categories (self w)) = false ->
     update_keyword_weights words category w
     = (Returned tt,
        {| self := self w; fs := fs w;
           stdout := (stdout w
                      ++ [("Error: Category '" ++ category
                           ++ "' does not exist.")%string])%list |}))
    /\ (mem "Others" (categories (self w)) = false ->
        self (snd (update_keyword_weights words "Others" w)) = self w)
    /\ (forall kws,
          Dict.get category (categories (self w)) = Some kws ->
          exists w',
            update_keyword_weights words category w = (Returned tt, w')
            /\ notes (self w') = notes (self w)
            /\ categories (self w') = categories (self w)
            /\ forall k,
                 Dict.get k (keyword_weights (self w'))
                 = if in_list k kws && Z.ltb 0 (count k words)
                   then Some (get_or k 0 (keyword_weights (self w))
                              + count k words)
                   else Dict.get k (keyword_weights (self w))).
Proof.
  intros words category w. split; [|split].
  - intros H. now rewrite update_keyword_weights_unknown by exact H.
  - intros H. now rewrite update_keyword_weights_unknown by exact H.
  - intros kws Hg.
    assert (Hm : mem category (categories (self w)) = true)
      by (unfold mem; now rewrite Hg).
    rewrite update_keyword_weights_known by exact Hm.
    set (w1 := with_weights _ w).
    destruct (save_data_self w1) as [H1 H2].
    destruct (save_data w1) as [o w2]. cbn [fst snd] in H1, H2. subst o.
    exists w2. split; [reflexivity|]. rewrite H2.
    cbn [w1 with_weights self notes categories keyword_weights].
    repeat split. intros k. unfold get_or at 1. rewrite Hg.
    apply get_bump_weights.
Qed.

Lemma score_word_reads_word weights1 weights2 word items scores :
  Dict.get word weights1 = Dict.get word weights2 ->
  score_word weights1 word items scores
  = score_word weights2 word items scores.
Proof.
  intros H. revert scores.
  induction items as [|[c kws] rest IH]; intros scores; [reflexivity|].
  cbn [score_word]. unfold get_or. rewrite H.
  destruct (in_list word (map lower kws)); [|apply IH].
  destruct (add_to_score _ _ _); cbn [obind]; [apply IH | reflexivity].
Qed.

Lemma score_words_read_words weights1 weights2 cats words scores :
  (forall word, In word words ->
                Dict.get word weights1 = Dict.get word weights2) ->
  score_words weights1 cats words scores
  = score_words weights2 cats words scores.
Proof.
  revert scores. induction words as [|word rest IH]; intros scores H.
  - reflexivity.
  - cbn [score_words].
    rewrite (score_word_reads_word weights1 weights2 word)
      by (apply H; now left).
    destruct (score_word _ _ _ _); cbn [obind]; [|reflexivity].
    apply IH. intros; apply H; now right.
Qed.

(** [categorize_notes] reads the weights under lowered words only: under
    keys that are the [lower] of a string. *)
Lemma categorize_reads_lowered cats weights1 weights2 note_content :
  (forall s, Dict.get (lower s) weights1 = Dict.get (lower s) weights2) ->
  categorize cats weights1 note_content
  = categorize cats weights2 note_content.
Proof.
  intros H. unfold categorize.
  rewrite (score_words_read_words weights1 weights2); [reflexivity|].
  intros word Hw. apply in_map_iff in Hw as [tok [<- _]]. apply H.
Qed.

Lemma categorize_notes_run s w :
  categorize_notes s w
  = (categorize (categories (self w)) (keyword_weights (self w)) s, w).
Proof. reflexivity. Qed.

End Weights.

(** ** [search_notes], and the calls that leave the object alone *)

Section Reading.

Lemma for_each_print_self {A} (line : A -> string) (l : list A) w :
  exists w',
    for_each l (fun x => print (line x)) w = (Returned tt, w')
    /\ self w' = self w /\ fs w' = fs w.
Proof.
  revert w. induction l as [|x r IH]; intros w.
  - exists w. repeat split.
  - cbn [for_each]. unfold bind at 1. cbn [print].
    destruct (IH {| self := self w; fs := fs w;
                    stdout := (stdout w ++ [line x])%list |})
      as [w' [E [H1 H2]]].
    exists w'. now rewrite E.
Qed.

Lemma view_notes_self w :
  exists w', view_notes w = (Returned tt, w') /\ self w' = self w.
Proof.
  unfold view_notes, bind at 1. cbn [get_self].
  destruct (notes (self w)) as [|n r].
  - eexists. split; reflexivity.
  - unfold bind at 1. cbn [print].
    destruct (for_each_print_self
                (fun note => "Category: " ++ category note
                             ++ " | Note: " ++ content note)
                (n :: r)
                {| self := self w; fs := fs w;
                   stdout := (stdout w
                              ++ [(newline
                                   ++ "--- Viewing All Notes ---")%string]
                             )%list |})
      as [w' [E [H1 _]]].
    exists w'. now rewrite E.
Qed.

Lemma export_notes_self filename w :
  exists w', export_notes filename w = (Returned tt, w')
             /\ self w' = self w.
Proof.
  unfold export_notes. destruct (is_empty (strip filename)).
  - eexists. split; reflexivity.
  - unfold bind, get_self, write_json.
    destruct (open_w_error (fs w) (strip filename));
      eexists; split; reflexivity.
Qed.

Lemma search_notes_found keyword w :
  is_empty (strip keyword) = false ->
  exists w',
    search_notes keyword w
    = (Returned
         (filter (fun n => contains (lower (strip keyword))
                             (lower (content n)))
            (notes (self w))),
       w')
    /\ self w' = self w /\ fs w' = fs w.
Proof.
  intros H. unfold search_notes. rewrite H.
  unfold bind at 1. cbn [get_self].
  destruct (filter _ (notes (self w))) as [|n r];
    eexists; split; try reflexivity; split; reflexivity.
Qed.

Lemma search_notes_self keyword w :
  self (snd (search_notes keyword w)) = self w.
Proof.
  destruct (is_empty (strip keyword)) eqn:E.
  - unfold search_notes. now rewrite E.
  - destruct (search_notes_found keyword w E) as [w' [-> [H _]]].
    exact H.
Qed.

(** C8: with a keyword that is empty once stripped, [search_notes] prints
    the error and returns the empty list; otherwise it returns the notes
    as filtered, in their order, by [contains] on the lowered stripped
    keyword and the lowered content, and this test holds exactly when the
    keyword occurs in the content when case is ignored. *)
Theorem search_notes_spec :
  forall (keyword : string) (w : world),
    (is_empty (strip keyword) = true ->
     search_notes keyword w
     = (Returned [],
        {| self := self w; fs := fs w;
           stdout := (stdout w
                      ++ ["Error: Keyword cannot be empty."])%list |}))
    /\ (is_empty (strip keyword) = false ->
        exists res w',
          search_notes keyword w = (Returned res, w')
          /\ self w' = self w
          /\ res = filter (fun n => contains (lower (strip keyword))
                                      (lower (content n)))
                     (notes (self w))
          /\ forall n,
               In n res <->
               In n (notes (self w))
               /\ occurs_ignoring_case (strip keyword) (content n)).
Proof.
  intros keyword w. split.
  - intros H. unfold search_notes. now rewrite H.
  - intros H. destruct (search_notes_found keyword w H) as [w' [E [H1 _]]].
    eexists. exists w'. split; [exact E|]. split; [exact H1|].
    split; [reflexivity|]. intros n.
    rewrite filter_In, contains_spec. reflexivity.
Qed.

End Reading.

(** ** The invariant of the notes *)

Section Invariant.

(** What every call preserves: the categories are well formed and every
    note is filed under one of them or under "Others". *)
Lemma after_preserves (c : call) (w : world) :
  Dict.wf (categories (self w)) /\ categories_known (self w) ->
  Dict.wf (categories (self (after c w)))
  /\ categories_known (self (after c w)).
Proof.
  intros [Hwf Hknown]. destruct c as [name kws | s | k | | filename];
    cbn [after].
  - destruct (add_category_self name kws w) as [w' [-> [H | [l [_ H]]]]];
      cbn [snd]; rewrite H; [now split|].
    cbn [with_categories self categories]. split.
    + now apply wf_set.
    + intros n Hn. cbn [notes] in *. destruct (Hknown n Hn) as [H0|H0].
      * now left.
      * right. now apply keys_set_incl.
  - destruct (is_empty (strip s)) eqn:Hs.
    + rewrite add_note_empty by exact Hs. now split.
    + destruct (categorize (categories (self w))
                  (keyword_weights (self w)) (strip s)) as [c|e] eqn:Hc.
      * destruct (add_note_returns s w c Hs Hc) as [w' [-> H]].
        cbn [snd]. rewrite H. cbn [categories]. split; [exact Hwf|].
        intros n Hn. cbn [notes categories] in *.
        apply in_app_or in Hn as [Hn | [<- | []]].
        -- now apply Hknown.
        -- cbn [category]. now apply (categorize_known _ _ (strip s)) in Hc.
      * rewrite (add_note_raises s w e Hs Hc). now split.
  - rewrite search_notes_self. now split.
  - destruct (view_notes_self w) as [w' [-> H]]. cbn [snd]. rewrite H.
    now split.
  - destruct (export_notes_self filename w) as [w' [-> H]]. cbn [snd].
    rewrite H. now split.
Qed.

Lemma reachable_invariant path f w :
  reachable path f w ->
  Dict.wf (categories (self w)) /\ categories_known (self w).
Proof.
  induction 1 as [|c w Hr IH].
  - split; [constructor | intros n []].
  - now apply after_preserves.
Qed.

(** C9: in every world reached from the empty store by calls of
    [add_category], [add_note], [search_notes], [view_notes] and
    [export_notes], every note is filed under a registered category or
    under "Others". *)
Theorem notes_have_known_categories :
  forall (path : string) (f : filesystem) (w : world),
    reachable path f w ->
    forall n, In n (notes (self w)) ->
      category n = "Others" \/ In (category n) (keys (categories (self w))).
Proof.
  intros path f w H. exact (proj2 (reachable_invariant path f w H)).
Qed.

End Invariant.

(** ** Saving and loading *)

Section Persistence.

Lemma map_opt_map {A B} (f : A -> B) (g : B -> option A) (l : list A) :
  (forall x, g (f x) = Some x) -> map_opt g (map f l) = Some l.
Proof.
  intros H. induction l as [|x r IH]; [reflexivity|].
  cbn [map map_opt]. now rewrite H, IH.
Qed.

Lemma notes_of_to_json (l : list note) :
  notes_of_json (notes_to_json l) = Some l.
Proof.
  unfold notes_of_json, notes_to_json. apply map_opt_map.
  now intros [c k].
Qed.





Lemma strip_then_drop_empty (l : list string) :
  map strip (filter (fun k => negb (is_empty (strip k))) l)
  = filter (fun k => negb (is_empty k)) (map strip l).
Proof.
  induction l as [|x r IH]; [reflexivity|].
  cbn [filter map]. destruct (is_empty (strip x)); cbn [negb map].
  - exact IH.
  - now rewrite IH.
Qed.


End Persistence.

(** ** The statements at concrete inputs *)

Section Instances.

(** "a B" scores 2 for "Work" and 2 for "Home": the tie goes to "Work",
    which was registered first. *)
Lemma categorize_first_maximum_witness :
  categorize [("Work", ["a"; "b"]); ("Home", ["A"; "b"])] [] "a B"
  = Returned "Work".
Proof.
  apply (categorize_first_maximum
           [("Work", ["a"; "b"]); ("Home", ["A"; "b"])] [] "a B"
           [] [("Home", ["A"; "b"])] "Work" ["a"; "b"]).
  - unfold Dict.wf. simpl. repeat constructor; simpl; intuition discriminate.
  - reflexivity.
  - vm_compute. reflexivity.
  - intros c' kws' [].
  - intros c' kws' [H|[]]. injection H as <- <-. vm_compute. discriminate.
Defined.

Lemma update_keyword_weights_spec_witness :
  update_keyword_weights ["meeting"] "Others" (fresh "notes.json" empty_fs)
  = (Returned tt,
     {| self := init "notes.json"; fs := empty_fs;
        stdout := ["Error: Category 'Others' does not exist."] |})
  /\ exists w',
       update_keyword_weights ["meeting"; "Meeting"; "meeting"] "Work"
         {| self := work_store "notes.json" []; fs := empty_fs;
            stdout := [] |}
       = (Returned tt, w')
       /\ Dict.get "meeting" (keyword_weights (self w')) = Some 2
       /\ Dict.get "Meeting" (keyword_weights (self w')) = None.
Proof.
  split.
  - apply (proj1 (update_keyword_weights_spec ["meeting"] "Others"
                    (fresh "notes.json" empty_fs))).
    reflexivity.
  - destruct (proj2 (proj2 (update_keyword_weights_spec
                              ["meeting"; "Meeting"; "meeting"] "Work"
                              {| self := work_store "notes.json" [];
                                 fs := empty_fs; stdout := [] |}))
                ["meeting"; "deadline"] eq_refl)
      as [w' [E [_ [_ H]]]].
    exists w'. split; [exact E|]. rewrite !H. split; reflexivity.
Defined.



Lemma search_notes_spec_witness :
  search_notes "  " (fresh "notes.json" empty_fs)
  = (Returned [],
     {| self := init "notes.json"; fs := empty_fs;
        stdout := ["Error: Keyword cannot be empty."] |})
  /\ exists res w',
       search_notes " milk "
         {| self := work_store "notes.json"
                      [{| content := "Buy Milk"; category := "Others" |};
                       {| content := "eggs"; category := "Others" |}];
            fs := empty_fs; stdout := [] |}
       = (Returned res, w')
       /\ res = [{| content := "Buy Milk"; category := "Others" |}].
Proof.
  split.
  - apply (proj1 (search_notes_spec "  " (fresh "notes.json" empty_fs))).
    reflexivity.
  - destruct (proj2 (search_notes_spec " milk "
                       {| self := work_store "notes.json"
                                    [{| content := "Buy Milk";
                                        category := "Others" |};
                                     {| content := "eggs";
                                        category := "Others" |}];
                          fs := empty_fs; stdout := [] |}) eq_refl)
      as [res [w' [E [_ [R _]]]]].
    exists res, w'. split; [exact E|]. rewrite R. reflexivity.
Defined.

Lemma notes_have_known_categories_witness :
  In {| content := "a meeting"; category := "Work" |}
    (notes (self (after (AddNote "a meeting")
                    (after (AddCategory "Work" ["meeting"])
                       (fresh "notes.json" empty_fs)))))
  /\ ("Work" = "Others"
      \/ In "Work"
           (keys (categories
                    (self (after (AddNote "a meeting")
                             (after (AddCategory "Work" ["meeting"])
                                (fresh "notes.json" empty_fs))))))).
Proof.
  split.
  - left. reflexivity.
  - apply (notes_have_known_categories "notes.json" empty_fs
             (after (AddNote "a meeting")
                (after (AddCategory "Work" ["meeting"])
                   (fresh "notes.json" empty_fs)))
             (reach_call _ _ _ _ (reach_call _ _ _ _ (reach_init _ _)))
             {| content := "a meeting"; category := "Work" |}).
    left. reflexivity.
Defined.

End Instances.

(** ** [add_category]: what it refuses and what it keeps *)

Section Categories.

Lemma no_keyword_left (keywords : list string) :
  (forall kw, In kw keywords -> is_empty (strip kw) = true) ->
  map strip (filter (fun k => negb (is_empty (strip k))) keywords) = [].
Proof.
  induction keywords as [|kw r IH]; intros H; [reflexivity|].
  cbn [filter]. rewrite (H kw) by now left. cbn [negb].
  apply IH. intros; apply H; now right.
Qed.

Lemma some_keyword_left (keywords : list string) :
  (exists kw, In kw keywords /\ is_empty (strip kw) = false) ->
  map strip (filter (fun k => negb (is_empty (strip k))) keywords) <> [].
Proof.
  intros [kw [Hin Hkw]] E.
  assert (Hi : In (strip kw)
                 (map strip
                    (filter (fun k => negb (is_empty (strip k))) keywords))).
  { apply in_map, filter_In. split; [exact Hin | now rewrite Hkw]. }
  rewrite E in Hi. exact Hi.
Qed.

(** The three refusals of [add_category], in the order in which the code
    tests them: an empty name, no keyword left, a name already registered.
    Each prints its own line, returns, and leaves the object and the files
    as they are. *)
Theorem add_category_refusals :
  forall (name : string) (keywords : list string) (w : world),
    (is_empty (strip name) = true ->
     add_category name keywords w
     = (Returned tt,
        {| self := self w; fs := fs w;
           stdout := (stdout w
                      ++ ["Error: Category name cannot be empty."])%list |}))
    /\ (is_empty (strip name) = false ->
        (forall kw, In kw keywords -> is_empty (strip kw) = true) ->
        add_category name keywords w
        = (Returned tt,
           {| self := self w; fs := fs w;
              stdout := (stdout w
                         ++ ["Error: Keywords cannot be empty."])%list |}))
    /\ (is_empty (strip name) = false ->
        (exists kw, In kw keywords /\ is_empty (strip kw) = false) ->
        mem (strip name) (categories (self w)) = true ->
        add_category name keywords w
        = (Returned tt,
           {| self := self w; fs := fs w;
              stdout := (stdout w
                         ++ [("Error: Category '" ++ strip name
                              ++ "' already exists.")%string])%list |})).
Proof.
  intros name keywords w. split; [|split].
  - intros H. unfold add_category. now rewrite H.
  - intros Hn Hk. unfold add_category.
    now rewrite Hn, (no_keyword_left keywords Hk).
  - intros Hn Hk Hm. unfold add_category. rewrite Hn.
    destruct (map strip _) as [|kw kws] eqn:E.
    + now apply some_keyword_left in Hk.
    + unfold bind. cbn [get_self]. now rewrite Hm.
Qed.

(** Under a name that is registered, [add_category] changes neither the
    object nor the files, whatever the keywords. *)
Lemma add_category_registered name keywords w :
  mem (strip name) (categories (self w)) = true ->
  exists w',
    add_category name keywords w = (Returned tt, w')
    /\ self w' = self w /\ fs w' = fs w.
Proof.
  intros Hm. unfold add_category.
  destruct (is_empty (strip name)).
  - eexists. split; [reflexivity|]. split; reflexivity.
  - destruct (map strip _) as [|kw kws].
    + eexists. split; [reflexivity|]. split; reflexivity.
    + unfold bind. cbn [get_self]. rewrite Hm.
      eexists. split; [reflexivity|]. split; reflexivity.
Qed.

(** A category registered by [add_category] stays as it is when
    [add_category] is called again with a name that strips to the same
    name: the second call changes neither the object nor the files. *)
Theorem add_category_twice :
  forall (name name' : string) (keywords keywords' : list string)
         (w : world),
    strip name' = strip name ->
    is_empty (strip name) = false ->
    (exists kw, In kw keywords /\ is_empty (strip kw) = false) ->
    mem (strip name) (categories (self w)) = false ->
    exists w1 w2,
      add_category name keywords w = (Returned tt, w1)
      /\ add_category name' keywords' w1 = (Returned tt, w2)
      /\ self w2 = self w1 /\ fs w2 = fs w1
      /\ Dict.get (strip name) (categories (self w2))
         = Some (filter (fun k => negb (is_empty k)) (map strip keywords)).
Proof.
  intros name name' keywords keywords' w Hsame Hn Hk Hm.
  destruct (map strip
              (filter (fun k => negb (is_empty (strip k))) keywords))
    as [|kw kws] eqn:E; [now apply some_keyword_left in Hk|].
  rewrite (add_category_added name keywords kw kws w Hn E Hm).
  set (w0 := with_categories _ w).
  unfold bind at 1.
  destruct (save_data_self w0) as [H1 H2].
  destruct (save_data w0) as [o w0']. cbn [fst snd] in H1, H2. subst o.
  unfold print.
  assert (Hget : Dict.get (strip name) (categories (self w0))
                 = Some (kw :: kws)).
  { cbn [w0 with_categories self categories].
    now rewrite get_set, String.eqb_refl. }
  match goal with
  | |- exists _ _, (_, ?x) = _ /\ _ => set (w1 := x)
  end.
  assert (Hself : self w1 = self w0) by exact H2.
  destruct (add_category_registered name' keywords' w1) as [w2 [E2 [S2 F2]]].
  { rewrite Hsame, Hself. unfold mem. now rewrite Hget. }
  exists w1, w2. split; [reflexivity|]. split; [exact E2|].
  split; [exact S2|]. split; [exact F2|].
  rewrite S2, Hself, Hget, <- strip_then_drop_empty. now rewrite E.
Qed.

Lemma get_app_present {V} k (d d' : dict V) :
  In k (keys d) -> Dict.get k (d ++ d')%list = Dict.get k d.
Proof.
  induction d as [|[k0 v0] r IH]; cbn; [tauto|].
  destruct (String.eqb k k0) eqn:E; [reflexivity|].
  apply String.eqb_neq in E. intros [H|H]; [congruence | now apply IH].
Qed.

Lemma add_category_effect name keywords w :
  exists w' added,
    add_category name keywords w = (Returned tt, w')
    /\ notes (self w') = notes (self w)
    /\ keyword_weights (self w') = keyword_weights (self w)
    /\ data_file (self w') = data_file (self w)
    /\ categories (self w') = (categories (self w) ++ added)%list
    /\ (added = []
        \/ added = [(strip name,
                     filter (fun k => negb (is_empty k))
                       (map strip keywords))]
           /\ is_empty (strip name) = false
           /\ filter (fun k => negb (is_empty k)) (map strip keywords) <> []
           /\ Dict.get (strip name) (categories (self w)) = None).
Proof.
  destruct (is_empty (strip name)) eqn:Hn.
  { rewrite add_category_ignored_name by exact Hn.
    eexists. exists []. unfold print. cbn [self]. rewrite app_nil_r.
    repeat split; auto. }
  destruct (map strip
              (filter (fun k => negb (is_empty (strip k))) keywords))
    as [|kw kws] eqn:E.
  { unfold add_category. rewrite Hn, E.
    eexists. exists []. unfold print. cbn [self]. rewrite app_nil_r.
    repeat split; auto. }
  destruct (mem (strip name) (categories (self w))) eqn:Hm.
  { destruct (add_category_registered name keywords w Hm)
      as [w' [E' [S' _]]].
    exists w', []. rewrite S', app_nil_r. repeat split; auto. }
  rewrite (add_category_added name keywords kw kws w Hn E Hm).
  set (w0 := with_categories _ w).
  unfold bind at 1.
  destruct (save_data_self w0) as [H1 H2].
  destruct (save_data w0) as [o w0']. cbn [fst snd] in H1, H2. subst o.
  unfold print. eexists. exists [(strip name, kw :: kws)].
  split; [reflexivity|]. cbn [self]. rewrite H2.
  cbn [w0 with_categories self notes keyword_weights data_file categories].
  assert (Hnone : Dict.get (strip name) (categories (self w)) = None).
  { unfold mem in Hm.
    destruct (Dict.get (strip name) (categories (self w)));
      [discriminate | reflexivity]. }
  rewrite <- strip_then_drop_empty, E.
  repeat split.
  - now apply set_absent.
  - right. repeat split; [discriminate | exact Hnone].
Qed.

(** [add_category] always returns; it never touches the notes, the weights
    or the name of the data file; it leaves every registered category in
    its place and with its keywords; and what it adds, if it adds, is one
    category, at the end, under a name that was not registered and is not
    empty, with the stripped keywords that are not empty, of which there is
    one at least. *)
Theorem add_category_keeps :
  forall (name : string) (keywords : list string) (w : world),
    exists w' added,
      add_category name keywords w = (Returned tt, w')
      /\ notes (self w') = notes (self w)
      /\ keyword_weights (self w') = keyword_weights (self w)
      /\ data_file (self w') = data_file (self w)
      /\ categories (self w') = (categories (self w) ++ added)%list
      /\ (added = []
          \/ added = [(strip name,
                       filter (fun k => negb (is_empty k))
                         (map strip keywords))]
             /\ is_empty (strip name) = false
             /\ filter (fun k => negb (is_empty k)) (map strip keywords)
                <> []
             /\ Dict.get (strip name) (categories (self w)) = None)
      /\ forall k, In k (keys (categories (self w))) ->
           Dict.get k (categories (self w'))
           = Dict.get k (categories (self w)).
Proof.
  intros name keywords w.
  destruct (add_category_effect name keywords w)
    as [w' [added [E [Hn [Hk [Hd [Hc Ha]]]]]]].
  exists w', added. repeat split; try assumption.
  intros k Hin. rewrite Hc. now apply get_app_present.
Qed.

End Categories.

(** ** The files: what is written, what is read back *)

Section Files.


(** [add_note], step by step, when [categorize_notes] returns [c]. *)
Lemma add_note_steps s w c :
  is_empty (strip s) = false ->
  categorize (categories (self w)) (keyword_weights (self w)) (strip s)
  = Returned c ->
  add_note s w
  = print ("Note added successfully under category '" ++ c ++ "'.")
      (snd (save_data
              (snd (update_keyword_weights (split (strip s)) c
                      (with_notes
                         (notes (self w)
                          ++ [{| content := strip s; category := c |}])%list
                         w))))).
Proof.
  intros Hs Hc. unfold add_note. rewrite Hs.
  unfold bind at 1. unfold categorize_notes at 1.
  unfold bind at 1. cbn [get_self lift]. rewrite Hc.
  unfold bind at 1. cbn [get_self].
  unfold bind at 1. unfold set_notes at 1, bind at 1.
  cbn [get_self put_self]. fold (with_notes
    (notes (self w) ++ [{| content := strip s; category := c |}])%list w).
  set (w1 := with_notes _ w).
  unfold bind at 1.
  destruct (update_keyword_weights_self (split (strip s)) c w1) as [H1 _].
  destruct (update_keyword_weights (split (strip s)) c w1) as [o w2].
  cbn [fst snd] in *. subst o.
  unfold bind at 1.
  destruct (save_data_self w2) as [H3 _].
  destruct (save_data w2) as [o w3]. cbn [fst snd] in *. subst o.
  reflexivity.
Qed.

(** What [update_keyword_weights] does to the files: nothing for a category
    that is not registered, the [save_data] of the new weights otherwise. *)
Lemma update_keyword_weights_fs words c w :
  fs (snd (update_keyword_weights words c w))
  = if mem c (categories (self w))
    then fs (snd (save_data
                    (with_weights (weights_after (self w) words c) w)))
    else fs w.
Proof.
  unfold weights_after. destruct (mem c (categories (self w))) eqn:E.
  - now rewrite update_keyword_weights_known by exact E.
  - now rewrite update_keyword_weights_unknown by exact E.
Qed.



(** When the data file cannot be opened for writing, [add_note] still
    returns and still appends the note, the files are left exactly as they
    were, and the failure is printed. *)
Theorem add_note_unsaved :
  forall (s : string) (w : world) (e : string),
    Dict.wf (categories (self w)) -> categories (self w) <> [] ->
    is_empty (strip s) = false ->
    open_w_error (fs w) (data_file (self w)) = Some e ->
    exists w' c,
      add_note s w = (Returned tt, w')
      /\ notes (self w')
         = (notes (self w) ++ [{| content := strip s; category := c |}])%list
      /\ fs w' = fs w
      /\ In ("Error saving data: " ++ e) (stdout w').
Proof.
  intros s w e Hwf Hne Hs Hopen.
  destruct (categorize_returns (keyword_weights (self w))
              (categories (self w)) (strip s) Hwf Hne) as [c Hc].
  rewrite (add_note_steps s w c Hs Hc).
  set (w1 := with_notes _ w).
  destruct (update_keyword_weights_self (split (strip s)) c w1) as [_ H2].
  assert (Hfs : fs (snd (update_keyword_weights (split (strip s)) c w1))
                = fs w).
  { rewrite update_keyword_weights_fs.
    destruct (mem c (categories (self w1))); [|reflexivity].
    now rewrite (save_data_error _ e). }
  set (w2 := snd (update_keyword_weights (split (strip s)) c w1)) in *.
  assert (Hd : data_file (self w2) = data_file (self w)) by now rewrite H2.
  assert (Hopen2 : open_w_error (fs w2) (data_file (self w2)) = Some e)
    by now rewrite Hfs, Hd.
  rewrite (save_data_error w2 e Hopen2). unfold print. cbn [snd].
  eexists. exists c. split; [reflexivity|]. cbn [self fs stdout].
  split; [now rewrite H2|]. split; [exact Hfs|].
  apply in_or_app. left. apply in_or_app. right. now left.
Qed.

Lemma load_data_not_object w j :
  files (fs w) (data_file (self w)) = Some (Json j) ->
  (forall m, j <> JObj m) ->
  load_data w
  = Some (Returned tt,
          {| self := self w; fs := fs w;
             stdout :=
               (stdout w
                ++ [("Loading data from: " ++ data_file (self w))%string;
                    ("Unexpected error: '" ++ type_name j
                     ++ "' object has no attribute 'get'")%string]
               )%list |}).
Proof.
  intros H Hj. unfold load_data, print. cbn [snd fs self stdout].
  rewrite H. destruct j; try (now rewrite <- app_assoc).
  now destruct (Hj m).
Qed.

(** [load_data] on a missing file, on a file that is not JSON and on a JSON
    value that is not an object: it prints what happened, returns, and
    leaves the object and the files as they are. *)
Theorem load_data_keeps_store :
  forall (w : world),
    (files (fs w) (data_file (self w)) = None ->
     load_data w
     = Some (Returned tt,
             {| self := self w; fs := fs w;
                stdout :=
                  (stdout w
                   ++ [("Loading data from: " ++ data_file (self w))%string;
                       ("File '" ++ data_file (self w)
                        ++ "' not found. A new file will be created upon saving."
                       )%string])%list |}))
    /\ (files (fs w) (data_file (self w)) = Some NotJson ->
        load_data w
        = Some (Returned tt,
                {| self := self w; fs := fs w;
                   stdout :=
                     (stdout w
                      ++ [("Loading data from: "
                           ++ data_file (self w))%string;
                          "Error: Invalid file format. Could not load data."]
                     )%list |}))
    /\ (forall j,
          files (fs w) (data_file (self w)) = Some (Json j) ->
          (forall m, j <> JObj m) ->
          load_data w
          = Some (Returned tt,
                  {| self := self w; fs := fs w;
                     stdout :=
                       (stdout w
                        ++ [("Loading data from: "
                             ++ data_file (self w))%string;
                            ("Unexpected error: '" ++ type_name j
                             ++ "' object has no attribute 'get'")%string]
                       )%list |})).
Proof.
  intros w. split; [|split].
  - intros H. unfold load_data, print. cbn [snd fs self stdout]. rewrite H.
    now rewrite <- app_assoc.
  - intros H. unfold load_data, print. cbn [snd fs self stdout]. rewrite H.
    now rewrite <- app_assoc.
  - intros j H Hj. now apply load_data_not_object.
Qed.

End Files.

(** ** [export_notes], [view_notes] and [search_notes] *)

Section Output.

Lemma export_notes_written filename w :
  is_empty (strip filename) = false ->
  open_w_error (fs w) (strip filename) = None ->
  exists w',
    export_notes filename w = (Returned tt, w')
    /\ self w' = self w
    /\ files (fs w') (strip filename)
       = Some (Json (JArr (map note_to_json (notes (self w))))).
Proof.
  intros H He. unfold export_notes. rewrite H.
  unfold bind, get_self, write_json. rewrite He. unfold print.
  eexists. split; [reflexivity|]. cbn [self fs fs_write files].
  rewrite String.eqb_refl. now split.
Qed.

(** [export_notes] in three cases.  A file name that is empty once stripped
    is reported and nothing else happens.  When opening the file of the
    stripped name raises an [IOError], the error is reported and nothing
    else happens.  When the file is opened, it holds afterwards the array
    of the notes, in their order and without the categories and the
    weights, which reads back as the notes, and nothing of the object is
    changed. *)
Theorem export_notes_spec :
  forall (filename : string) (w : world),
    (is_empty (strip filename) = true ->
     export_notes filename w
     = (Returned tt,
        {| self := self w; fs := fs w;
           stdout := (stdout w
                      ++ ["Error: Filename cannot be empty."])%list |}))
    /\ (forall e,
          is_empty (strip filename) = false ->
          open_w_error (fs w) (strip filename) = Some e ->
          export_notes filename w
          = (Returned tt,
             {| self := self w; fs := fs w;
                stdout := (stdout w
                           ++ [("Error exporting notes: " ++ e)%string]
                          )%list |}))
    /\ (is_empty (strip filename) = false ->
        open_w_error (fs w) (strip filename) = None ->
        exists w',
          export_notes filename w = (Returned tt, w')
          /\ self w' = self w
          /\ files (fs w') (strip filename)
             = Some (Json (JArr (map note_to_json (notes (self w)))))
          /\ notes_of_json (JArr (map note_to_json (notes (self w))))
             = Some (notes (self w))).
Proof.
  intros filename w. split; [|split].
  - intros H. unfold export_notes. now rewrite H.
  - intros e H He. unfold export_notes. rewrite H.
    unfold bind, get_self, write_json. now rewrite He.
  - intros H He.
    destruct (export_notes_written filename w H He) as [w' [E [S F]]].
    exists w'. repeat split; try assumption.
    apply (notes_of_to_json (notes (self w))).
Qed.

(** Exporting onto the data file replaces the document of the store by an
    array: [load_data] then prints the error of the missing method [get]
    and leaves the object it was called on as it is, so that an object
    newly made on that file has no category, no weight and no note. *)
Theorem export_over_data_file :
  forall (filename : string) (w : world) (me0 : NoteManager)
         (out : list string),
    is_empty (strip filename) = false ->
    open_w_error (fs w) (strip filename) = None ->
    data_file me0 = strip filename ->
    exists w1,
      export_notes filename w = (Returned tt, w1)
      /\ load_data {| self := me0; fs := fs w1; stdout := out |}
         = Some (Returned tt,
                 {| self := me0; fs := fs w1;
                    stdout :=
                      (out
                       ++ [("Loading data from: " ++ data_file me0)%string;
                           "Unexpected error: 'list' object has no attribute 'get'"]
                      )%list |}).
Proof.
  intros filename w me0 out H He Hd.
  destruct (export_notes_written filename w H He) as [w1 [E [_ Hf]]].
  exists w1. split; [exact E|].
  apply (load_data_not_object
           {| self := me0; fs := fs w1; stdout := out |}
           (JArr (map note_to_json (notes (self w))))).
  - cbn [fs self]. now rewrite Hd.
  - discriminate.
Qed.

Lemma for_each_print {A} (line : A -> string) (l : list A) w :
  for_each l (fun x => print (line x)) w
  = (Returned tt,
     {| self := self w; fs := fs w;
        stdout := (stdout w ++ map line l)%list |}).
Proof.
  revert w. induction l as [|x r IH]; intros w.
  - destruct w as [me f out]. cbn. now rewrite app_nil_r.
  - cbn [for_each]. unfold bind at 1, print at 1. rewrite IH.
    cbn [self fs stdout map]. now rewrite <- app_assoc.
Qed.

(** [view_notes] prints one line when there is no note, and otherwise the
    heading and then one line for each note, in the order of the notes; it
    changes nothing else. *)
Theorem view_notes_output :
  forall (w : world),
    view_notes w
    = (Returned tt,
       {| self := self w; fs := fs w;
          stdout :=
            (stdout w
             ++ match notes (self w) with
                | [] => ["No notes available to view."]
                | _ :: _ =>
                    (newline ++ "--- Viewing All Notes ---")%string
                    :: map (fun n => ("Category: " ++ category n
                                      ++ " | Note: " ++ content n)%string)
                         (notes (self w))
                end)%list |}).
Proof.
  intros w. unfold view_notes, bind at 1. cbn [get_self].
  destruct (notes (self w)) as [|n r]; [reflexivity|].
  unfold bind at 1, print at 1.
  rewrite (for_each_print
             (fun n => "Category: " ++ category n
                       ++ " | Note: " ++ content n)).
  cbn [self fs stdout]. now rewrite <- app_assoc.
Qed.

(** With a keyword that is not empty once stripped, [search_notes] prints
    that nothing was found exactly when its result is empty, and changes
    neither the object nor the files. *)
Theorem search_notes_report :
  forall (keyword : string) (w : world),
    is_empty (strip keyword) = false ->
    exists res w',
      search_notes keyword w = (Returned res, w')
      /\ self w' = self w /\ fs w' = fs w
      /\ stdout w'
         = (stdout w
            ++ match res with
               | [] => [("No notes found containing the keyword '"
                         ++ strip keyword ++ "'.")%string]
               | _ :: _ => []
               end)%list.
Proof.
  intros keyword w H. unfold search_notes. rewrite H.
  unfold bind at 1. cbn [get_self].
  destruct (filter _ (notes (self w))) as [|n r].
  - eexists. eexists. split; [reflexivity|]. repeat split.
  - eexists. eexists. split; [reflexivity|]. cbn [self fs stdout].
    now rewrite app_nil_r.
Qed.

Lemma lower_app (a b : string) : lower (a ++ b) = lower a ++ lower b.
Proof.
  induction a as [|c r IH]; [reflexivity|]. cbn. now rewrite IH.
Qed.

Lemma string_app_assoc (a b c : string) : (a ++ b) ++ c = a ++ b ++ c.
Proof.
  induction a as [|x r IH]; [reflexivity|]. cbn. now rewrite IH.
Qed.

(** A note is found by every keyword that occurs in its content when case
    is ignored, with any whitespace typed around the keyword. *)
Theorem search_notes_finds :
  forall (keyword : string) (w : world) (n : note),
    In n (notes (self w)) ->
    occurs_ignoring_case keyword (content n) ->
    is_empty (strip keyword) = false ->
    exists res w',
      search_notes keyword w = (Returned res, w') /\ In n res.
Proof.
  intros keyword w n Hin [pre [post Hc]] Hk.
  destruct (search_notes_found keyword w Hk) as [w' [E _]].
  eexists. exists w'. split; [exact E|].
  apply filter_In. split; [exact Hin|].
  apply contains_spec.
  destruct (strip_spec keyword) as [l [r [_ [_ [Hs _]]]]].
  exists (pre ++ lower l), (lower r ++ post).
  rewrite Hc. rewrite Hs at 1.
  now rewrite !lower_app, !string_app_assoc.
Qed.

End Output.

(** ** What holds of every store the calls build *)

Section Tidy.

Lemma lstrip_fixed (s : string) :
  is_empty s = true \/ word_goes_on s = true -> lstrip s = s.
Proof.
  destruct s as [|c r]; [reflexivity|]. cbn.
  intros [H|H]; [discriminate|].
  destruct (isspace c); [discriminate | reflexivity].
Qed.

Lemma rstrip_fixed (s : string) : ends_with_space s = false -> rstrip s = s.
Proof.
  induction s as [|c r IH]; [reflexivity|].
  cbn [ends_with_space rstrip]. destruct r as [|c' r'].
  - intros H. cbn. now rewrite H.
  - intros H. rewrite (IH H). cbn [is_empty]. now rewrite andb_false_r.
Qed.

(** Stripping twice is stripping once. *)
Lemma strip_idempotent (s : string) : strip (strip s) = strip s.
Proof.
  destruct (strip_spec s) as [l [r [_ [_ [_ [Hstart Hend]]]]]].
  unfold strip at 1. rewrite (lstrip_fixed _ Hstart).
  now apply rstrip_fixed.
Qed.

Lemma kept_keywords_tidy (keywords : list string) (kw : string) :
  In kw (filter (fun k => negb (is_empty k)) (map strip keywords)) ->
  is_empty kw = false /\ strip kw = kw.
Proof.
  intros H. apply filter_In in H as [Hin Hne].
  apply in_map_iff in Hin as [x [<- _]]. split.
  - now destruct (is_empty (strip x)).
  - apply strip_idempotent.
Qed.


Lemma weights_after_earned (me : NoteManager) words c :
  weights_earned me ->
  forall k v,
    Dict.get k (weights_after me words c) = Some v ->
    1 <= v /\ exists c' kws, In (c', kws) (categories me) /\ In k kws.
Proof.
  intros Hw k v. unfold weights_after.
  destruct (mem c (categories me)) eqn:Hm; [|apply Hw].
  rewrite get_bump_weights.
  destruct (in_list k (get_or c [] (categories me))) eqn:Hk;
    cbn [andb]; [|apply Hw].
  destruct (Z.ltb_spec 0 (count k words)) as [Hc|Hc]; [|apply Hw].
  intros [= <-]. split.
  - unfold get_or. destruct (Dict.get k (keyword_weights me)) as [v0|] eqn:E.
    + destruct (Hw k v0 E) as [H1 _]. lia.
    + lia.
  - unfold get_or in Hk.
    destruct (Dict.get c (categories me)) as [kws|] eqn:E;
      [|discriminate].
    exists c, kws. split; [now apply get_in | now apply in_list_spec].
Qed.

(** Every call keeps the store tidy. *)
Lemma after_keeps_tidy (c : call) (w : world) :
  tidy (self w) -> tidy (self (after c w)).
Proof.
  intros Ht. pose proof Ht as [Hwf [Hn [Hc Hw]]].
  destruct c as [name kws | s | k | | filename]; cbn [after].
  - destruct (add_category_effect name kws w)
      as [w' [added [-> [En [Ek [_ [Ec Ha]]]]]]].
    cbn [snd]. unfold tidy, contents_stripped, categories_tidy,
      weights_earned. rewrite En, Ek, Ec.
    destruct Ha as [-> | [-> [Hname [Hkept Hnone]]]].
    + rewrite app_nil_r. exact Ht.
    + split; [|split; [exact Hn|split]].
      * rewrite <- (set_absent _ _ _ Hnone). now apply wf_set.
      * intros c0 kws0 Hin. apply in_app_or in Hin as [Hin | [[= <- <-]|[]]].
        -- now apply Hc.
        -- split; [exact Hname|]. split; [apply strip_idempotent|].
           split; [exact Hkept | apply kept_keywords_tidy].
      * intros k0 v Hg. destruct (Hw k0 v Hg) as [H1 [c0 [kws0 [Hin Hk0]]]].
        split; [exact H1|]. exists c0, kws0.
        split; [apply in_or_app; now left | exact Hk0].
  - destruct (is_empty (strip s)) eqn:Hs.
    + rewrite add_note_empty by exact Hs. exact Ht.
    + destruct (categorize (categories (self w))
                  (keyword_weights (self w)) (strip s)) as [c|e] eqn:Hcat.
      * destruct (add_note_returns s w c Hs Hcat) as [w' [-> H]].
        cbn [snd]. unfold tidy, contents_stripped, categories_tidy,
          weights_earned. rewrite H. cbn [notes categories keyword_weights].
        split; [exact Hwf|]. split; [|split; [exact Hc|]].
        -- intros n Hin. apply in_app_or in Hin as [Hin | [<- | []]].
           ++ now apply Hn.
           ++ cbn [content]. split; [exact Hs | apply strip_idempotent].
        -- now apply weights_after_earned.
      * rewrite (add_note_raises s w e Hs Hcat). exact Ht.
  - rewrite search_notes_self. exact Ht.
  - destruct (view_notes_self w) as [w' [-> H]]. cbn [snd]. rewrite H.
    exact Ht.
  - destruct (export_notes_self filename w) as [w' [-> H]]. cbn [snd].
    rewrite H. exact Ht.
Qed.

Lemma reachable_tidy path f w : reachable path f w -> tidy (self w).
Proof.
  induction 1 as [|c w Hr IH].
  - split; [constructor|]. split; [intros n []|].
    split; [intros c kws [] | intros k v [=]].
  - now apply after_keeps_tidy.
Qed.

(** In every store built by calls from the empty store, every note has a
    content that is not empty and has no whitespace at its ends. *)
Theorem notes_are_stripped :
  forall (path : string) (f : filesystem) (w : world),
    reachable path f w ->
    forall n, In n (notes (self w)) ->
      is_empty (content n) = false /\ strip (content n) = content n.
Proof.
  intros path f w H. apply (reachable_tidy path f w H).
Qed.

(** In every such store no category name occurs twice, and every category
    has a name that is not empty and is stripped, and at least one keyword,
    each keyword not empty and stripped. *)
Theorem categories_are_tidy :
  forall (path : string) (f : filesystem) (w : world),
    reachable path f w ->
    NoDup (keys (categories (self w)))
    /\ forall c kws, In (c, kws) (categories (self w)) ->
         is_empty c = false /\ strip c = c /\ kws <> []
         /\ forall kw, In kw kws -> is_empty kw = false /\ strip kw = kw.
Proof.
  intros path f w H.
  destruct (reachable_tidy path f w H) as [Hwf [_ [Hc _]]].
  split; [exact Hwf | exact Hc].
Qed.

(** In every such store every weight is at least 1 and is the weight of a
    keyword of some registered category. *)
Theorem weights_are_earned :
  forall (path : string) (f : filesystem) (w : world),
    reachable path f w ->
    forall k v, Dict.get k (keyword_weights (self w)) = Some v ->
      1 <= v
      /\ exists c kws, In (c, kws) (categories (self w)) /\ In k kws.
Proof.
  intros path f w H.
  destruct (reachable_tidy path f w H) as [_ [_ [_ Hw]]]. exact Hw.
Qed.

End Tidy.

(** ** The category chosen has the greatest score *)

Section Choice.

Variable weights : dict Z.

(** A list that is not empty has a first entry of greatest value. *)
Lemma first_maximum_exists (f : list string -> Z)
    (l : list (string * list string)) :
  l <> [] ->
  exists before c kws after,
    l = (before ++ (c, kws) :: after)%list
    /\ (forall c' kws', In (c', kws') before -> f kws' < f kws)
    /\ (forall c' kws', In (c', kws') after -> f kws' <= f kws).
Proof.
  induction l as [|[c0 kws0] r IH]; [congruence|]. intros _.
  destruct r as [|x r'].
  - exists [], c0, kws0, []. split; [reflexivity|].
    split; intros c' kws' [].
  - destruct IH as [before [c [kws [after [E [Hb Ha]]]]]]; [discriminate|].
    destruct (Z.ltb_spec (f kws0) (f kws)) as [Hlt|Hge].
    + exists ((c0, kws0) :: before), c, kws, after. rewrite E.
      split; [reflexivity|]. split; [|exact Ha].
      intros c' kws' [[= <- <-]|H]; [exact Hlt | now apply (Hb c')].
    + exists [], c0, kws0, (x :: r'). split; [reflexivity|].
      split; [intros c' kws' []|].
      intros c' kws' H. rewrite E in H.
      apply in_app_or in H as [H | [[= <- <-] | H]].
      * specialize (Hb c' kws' H). lia.
      * exact Hge.
      * specialize (Ha c' kws' H). lia.
Qed.

(** The result of [categorize_notes] from the first category of greatest
    score: that category, or "Others" when its score is 0. *)
Lemma categorize_at_first_maximum cats note_content before c kws after :
  Dict.wf cats ->
  cats = (before ++ (c, kws) :: after)%list ->
  (forall c' kws', In (c', kws') before ->
     match_score weights (map lower (split note_content)) kws'
     < match_score weights (map lower (split note_content)) kws) ->
  (forall c' kws', In (c', kws') after ->
     match_score weights (map lower (split note_content)) kws'
     <= match_score weights (map lower (split note_content)) kws) ->
  categorize cats weights note_content
  = Returned
      (if Z.eqb (match_score weights (map lower (split note_content)) kws) 0
       then "Others" else c).
Proof.
  intros Hwf Hcats Hbefore Hafter.
  rewrite categorize_table by exact Hwf. cbv zeta.
  set (score := match_score weights (map lower (split note_content))) in *.
  set (scores := score_table score cats).
  assert (Hval : forall c' kws', In (c', kws') cats ->
                                 get_or c' 0 scores = score kws').
  { intros c' kws' Hin. unfold get_or, scores.
    now rewrite (get_score_table score cats c' kws' Hwf Hin). }
  assert (Hc : get_or c 0 scores = score kws).
  { apply Hval. rewrite Hcats. apply in_or_app. right. now left. }
  assert (Hk : keys scores = (keys before ++ c :: keys after)%list).
  { unfold scores. rewrite keys_score_table, Hcats.
    unfold keys. now rewrite map_app. }
  rewrite (py_max_first scores (keys before) c (keys after) Hk).
  - cbn [obind]. unfold subscript.
    rewrite get_present by (rewrite Hk; apply in_or_app; right; now left).
    cbn [obind]. rewrite Hc. now destruct (Z.eqb (score kws) 0).
  - intros k Hin. apply in_map_iff in Hin as [[c' kws'] [<- Hin]].
    cbn [fst]. rewrite Hc, (Hval c' kws').
    + now apply (Hbefore c' kws').
    + rewrite Hcats. apply in_or_app. now left.
  - intros k Hin. apply in_map_iff in Hin as [[c' kws'] [<- Hin]].
    cbn [fst]. rewrite Hc, (Hval c' kws').
    + now apply (Hafter c' kws').
    + rewrite Hcats. apply in_or_app. right. now right.
Qed.

Lemma categorize_maximum cats note_content :
  Dict.wf cats -> cats <> [] ->
  exists c kws,
    In (c, kws) cats
    /\ (forall c' kws', In (c', kws') cats ->
          match_score weights (map lower (split note_content)) kws'
          <= match_score weights (map lower (split note_content)) kws)
    /\ categorize cats weights note_content
       = Returned
           (if Z.eqb
                 (match_score weights (map lower (split note_content)) kws) 0
            then "Others" else c).
Proof.
  intros Hwf Hne.
  destruct (first_maximum_exists
              (match_score weights (map lower (split note_content)))
              cats Hne) as [before [c [kws [after [E [Hb Ha]]]]]].
  exists c, kws. split; [|split].
  - rewrite E. apply in_or_app. right. now left.
  - intros c' kws' H. rewrite E in H.
    apply in_app_or in H as [H | [[= <- <-] | H]].
    + specialize (Hb c' kws' H). lia.
    + lia.
    + now apply (Ha c' kws').
  - now apply (categorize_at_first_maximum cats note_content before c kws
                 after).
Qed.

(** With categories registered, [categorize_notes] returns a category whose
    score no other category exceeds, unless that score is 0, when it
    returns "Others": also a negative greatest score, which weights read
    from a file can give, names its category. *)
Theorem categorize_takes_maximum :
  forall (cats : dict (list string)) (note_content : string),
    Dict.wf cats -> cats <> [] ->
    exists c kws,
      In (c, kws) cats
      /\ (forall c' kws', In (c', kws') cats ->
            match_score weights (map lower (split note_content)) kws'
            <= match_score weights (map lower (split note_content)) kws)
      /\ categorize cats weights note_content
         = Returned
             (if Z.eqb
                   (match_score weights (map lower (split note_content)) kws)
                   0
              then "Others" else c).
Proof.
  intros cats note_content Hwf Hne.
  destruct (categorize_maximum cats note_content Hwf Hne)
    as [c [kws [Hin [Hmax E]]]].
  exists c, kws. now repeat split.
Qed.

Hypothesis weights_positive :
  forall k v, Dict.get k weights = Some v -> 1 <= v.

Lemma word_score_bounds kws word :
  0 <= word_score weights kws word
  /\ (in_list word (map lower kws) = true ->
      1 <= word_score weights kws word).
Proof.
  unfold word_score. destruct (in_list word (map lower kws)).
  - assert (H : 1 <= get_or word 1 weights).
    { unfold get_or. destruct (Dict.get word weights) as [v|] eqn:E.
      - now apply (weights_positive word).
      - lia. }
    split; [lia | intros _; exact H].
  - split; [lia | discriminate].
Qed.

Lemma match_score_cons word rest kws :
  match_score weights (word :: rest) kws
  = word_score weights kws word + match_score weights rest kws.
Proof. reflexivity. Qed.

Lemma match_score_nonneg words kws : 0 <= match_score weights words kws.
Proof.
  induction words as [|word rest IH]; [cbn; lia|].
  rewrite match_score_cons.
  destruct (word_score_bounds kws word) as [H _]. lia.
Qed.

Lemma match_score_matched words kws word :
  In word words -> in_list word (map lower kws) = true ->
  1 <= match_score weights words kws.
Proof.
  induction words as [|w0 rest IH]; [intros []|].
  intros [->|Hin] Hm; rewrite match_score_cons.
  - destruct (word_score_bounds kws word) as [_ H].
    pose proof (match_score_nonneg rest kws). specialize (H Hm). lia.
  - destruct (word_score_bounds kws w0) as [H _].
    specialize (IH Hin Hm). lia.
Qed.

(** With weights that are all positive, the score of a category is
    positive exactly when a token matches one of its keywords. *)
Lemma match_score_positive note_content kws :
  0 < match_score weights (map lower (split note_content)) kws
  <-> some_token_matches kws note_content.
Proof.
  split.
  - intros Hpos.
    destruct (existsb (fun word => in_list word (map lower kws))
                (map lower (split note_content))) eqn:E.
    + apply existsb_exists in E as [word [Hin Hm]].
      apply in_map_iff in Hin as [tok [<- Htok]].
      apply in_list_spec, in_map_iff in Hm as [kw [Hkw Hin]].
      exists tok, kw. now repeat split.
    + rewrite match_score_no_match in Hpos; [lia|].
      intros word Hin.
      destruct (in_list word (map lower kws)) eqn:Hm; [|reflexivity].
      assert (Hex : existsb (fun word => in_list word (map lower kws))
                      (map lower (split note_content)) = true)
        by (apply existsb_exists; now exists word).
      congruence.
  - intros [tok [kw [Htok [Hkw Heq]]]].
    assert (H : 1 <= match_score weights (map lower (split note_content))
                       kws).
    { apply (match_score_matched _ kws (lower tok)).
      - now apply in_map.
      - apply in_list_spec. rewrite Heq. now apply in_map. }
    lia.
Qed.

(** With weights that are all positive, a content of which some token
    matches a keyword of a category is given a registered category, one of
    whose keywords a token of the content matches. *)
Lemma categorize_matched cats note_content c kws :
  Dict.wf cats -> In (c, kws) cats ->
  some_token_matches kws note_content ->
  exists c' kws',
    categorize cats weights note_content = Returned c'
    /\ In (c', kws') cats /\ some_token_matches kws' note_content.
Proof.
  intros Hwf Hin Hm.
  assert (Hne : cats <> []) by (intros ->; exact Hin).
  destruct (categorize_maximum cats note_content Hwf Hne)
    as [c' [kws' [Hin' [Hmax E]]]].
  apply match_score_positive in Hm.
  specialize (Hmax c kws Hin).
  exists c', kws'. rewrite E.
  destruct (Z.eqb_spec
              (match_score weights (map lower (split note_content)) kws') 0)
    as [H0|H0]; [lia|].
  split; [reflexivity|]. split; [exact Hin'|].
  apply match_score_positive. lia.
Qed.

End Choice.

(** ** The menu *)

Section Menu.

(** [add_note] raises only from [categorize_notes], before it changes
    anything, and then there is no category. *)
Lemma add_note_raised s w e :
  fst (add_note s w) = Raised e ->
  add_note s w = (Raised e, w)
  /\ (Dict.wf (categories (self w)) ->
      e = ValueError /\ categories (self w) = []).
Proof.
  intros H. destruct (is_empty (strip s)) eqn:Hs.
  - rewrite add_note_empty in H by exact Hs. discriminate.
  - destruct (categorize (categories (self w)) (keyword_weights (self w))
                (strip s)) as [c|e'] eqn:Hc.
    + destruct (add_note_returns s w c Hs Hc) as [w' [E _]].
      rewrite E in H. discriminate.
    + rewrite (add_note_raises s w e' Hs Hc) in *. cbn [fst] in H.
      injection H as ->. split; [reflexivity|]. intros Hwf.
      destruct (categories (self w)) as [|x r] eqn:Ec.
      * rewrite categorize_no_category in Hc. now injection Hc as <-.
      * destruct (categorize_returns (keyword_weights (self w))
                    (x :: r) (strip s) Hwf) as [c Hc']; [discriminate|].
        congruence.
Qed.

Lemma search_and_print keyword w :
  exists res w',
    (results <- search_notes keyword ;;
     for_each results (fun note =>
       print ("Category: " ++ category note
              ++ " | Note: " ++ content note))) w
    = (Returned tt, w')
    /\ self w' = self w /\ fs w' = fs w
    /\ (fst (search_notes keyword w) = Returned res).
Proof.
  unfold bind at 1.
  destruct (search_notes keyword w) as [[res|e] w1] eqn:E.
  - assert (Hs : self w1 = self w)
      by (rewrite <- (search_notes_self keyword w); now rewrite E).
    assert (Hf : fs w1 = fs w).
    { destruct (is_empty (strip keyword)) eqn:Hk.
      - unfold search_notes in E. rewrite Hk in E. now injection E as _ <-.
      - destruct (search_notes_found keyword w Hk) as [w2 [E2 [_ F2]]].
        rewrite E in E2. now injection E2 as _ ->. }
    rewrite for_each_print. exists res. eexists.
    split; [reflexivity|]. cbn [self fs fst]. now repeat split.
  - exfalso. destruct (is_empty (strip keyword)) eqn:Hk.
    + unfold search_notes in E. rewrite Hk in E. discriminate.
    + destruct (search_notes_found keyword w Hk) as [w2 [E2 _]].
      rewrite E in E2. discriminate.
Qed.

(** The loop of the menu, seen from the object: it ends without a call, or
    on an exception of [add_note], or goes on after a call. *)
Lemma menu_loop_selves
    (P : NoteManager -> menu_end -> NoteManager -> Prop) :
  (forall me, P me EndOfInput me) ->
  (forall me, P me Goodbye me) ->
  (forall s e w,
     add_note s w = (Raised e, w) -> P (self w) (Crashed e) (self w)) ->
  (forall c w r me', P (self (after c w)) r me' -> P (self w) r me') ->
  forall inputs w,
    P (self w) (fst (menu_loop inputs w))
      (self (snd (menu_loop inputs w))).
Proof.
  intros Hend Hbye Hcrash Hstep inputs.
  assert (H : forall n inputs, (List.length inputs <= n)%nat ->
                forall w, P (self w) (fst (menu_loop inputs w))
                            (self (snd (menu_loop inputs w)))).
  { clear inputs. induction n as [|n IH]; intros inputs Hlen w.
    - destruct inputs; [apply Hend | cbn in Hlen; lia].
    - destruct inputs as [|choice rest]; [apply Hend|].
      cbn [List.length] in Hlen. cbn [menu_loop].
      destruct (String.eqb choice "1").
      { destruct rest as [|category rest1]; [apply Hend|].
        destruct rest1 as [|keywords rest2]; [apply Hend|].
        cbn [List.length] in Hlen. unfold calling.
        set (w1 := show_prompt _ (show_prompt _ (show_menu w))).
        destruct (add_category_self category (split_on comma keywords) w1)
          as [w' [E _]].
        rewrite E.
        apply (Hstep (AddCategory category (split_on comma keywords)) w1).
        cbn [after]. rewrite E. cbn [snd]. apply IH. lia. }
      destruct (String.eqb choice "2").
      { destruct rest as [|note_content rest1]; [apply Hend|].
        cbn [List.length] in Hlen. unfold calling.
        set (w1 := show_prompt _ (show_menu w)).
        destruct (add_note note_content w1) as [[[]|e] w'] eqn:E.
        - apply (Hstep (AddNote note_content) w1).
          cbn [after]. rewrite E. cbn [snd]. apply IH. lia.
        - destruct (add_note_raised note_content w1 e) as [E' _];
            [now rewrite E|].
          rewrite E in E'. injection E' as ->. cbn [fst snd].
          apply (Hcrash note_content e w1). exact E. }
      destruct (String.eqb choice "3").
      { unfold calling. set (w1 := show_menu w).
        destruct (view_notes_self w1) as [w' [E _]]. rewrite E.
        apply (Hstep ViewNotes w1).
        cbn [after]. rewrite E. cbn [snd]. apply IH. lia. }
      destruct (String.eqb choice "4").
      { destruct rest as [|keyword rest1]; [apply Hend|].
        cbn [List.length] in Hlen. unfold calling.
        set (w1 := show_prompt _ (show_menu w)).
        destruct (search_and_print keyword w1) as [res [w' [E [Hs _]]]].
        rewrite E. change (self w) with (self w1). rewrite <- Hs.
        apply IH. lia. }
      destruct (String.eqb choice "5").
      { destruct rest as [|filename rest1]; [apply Hend|].
        cbn [List.length] in Hlen. unfold calling.
        set (w1 := show_prompt _ (show_menu w)).
        destruct (export_notes_self filename w1) as [w' [E _]]. rewrite E.
        apply (Hstep (ExportNotes filename) w1).
        cbn [after]. rewrite E. cbn [snd]. apply IH. lia. }
      destruct (String.eqb choice "6"); [apply Hbye|].
      unfold calling, print at 1.
      set (w1 := {| self := self (show_menu w); fs := _; stdout := _ |}).
      change (self w) with (self w1). apply IH. lia. }
  apply (H (List.length inputs)). lia.
Qed.

(** A call adds categories at the end, if it changes them at all. *)
Lemma after_categories (c : call) (w : world) :
  exists added,
    categories (self (after c w)) = (categories (self w) ++ added)%list
    /\ (Dict.wf (categories (self w)) ->
        Dict.wf (categories (self (after c w)))).
Proof.
  destruct c as [name kws | s | k | | filename]; cbn [after].
  - destruct (add_category_effect name kws w)
      as [w' [added [-> [_ [_ [_ [Ec Ha]]]]]]].
    cbn [snd]. exists added. split; [exact Ec|]. rewrite Ec. intros Hwf.
    destruct Ha as [-> | [-> [_ [_ Hnone]]]].
    + now rewrite app_nil_r.
    + rewrite <- (set_absent _ _ _ Hnone). now apply wf_set.
  - exists []. rewrite app_nil_r.
    destruct (is_empty (strip s)) eqn:Hs.
    + rewrite add_note_empty by exact Hs. now split.
    + destruct (categorize (categories (self w))
                  (keyword_weights (self w)) (strip s)) as [c|e] eqn:Hc.
      * destruct (add_note_returns s w c Hs Hc) as [w' [-> H]].
        cbn [snd]. rewrite H. now split.
      * rewrite (add_note_raises s w e Hs Hc). now split.
  - exists []. rewrite app_nil_r, search_notes_self. now split.
  - exists []. rewrite app_nil_r.
    destruct (view_notes_self w) as [w' [-> H]]. cbn [snd]. rewrite H.
    now split.
  - exists []. rewrite app_nil_r.
    destruct (export_notes_self filename w) as [w' [-> H]]. cbn [snd].
    rewrite H. now split.
Qed.

(** Whatever is typed, the menu keeps the store tidy and every note under
    a registered category or under "Others", up to the moment it ends, by
    the choice 6, at the end of the input or on an exception. *)
Theorem menu_loop_keeps_invariants :
  forall (inputs : list string) (w : world),
    tidy (self w) -> categories_known (self w) ->
    tidy (self (snd (menu_loop inputs w)))
    /\ categories_known (self (snd (menu_loop inputs w))).
Proof.
  intros inputs w Ht Hk.
  apply (menu_loop_selves
           (fun me _ me' =>
              tidy me /\ categories_known me ->
              tidy me' /\ categories_known me')); try tauto.
  intros c w0 r me' H [Ht0 Hk0]. apply H. split.
  - now apply after_keeps_tidy.
  - apply after_preserves. split; [apply Ht0 | exact Hk0].
Qed.

(** On a store of the shapes the program writes, the loop of the menu ends
    in one of three ways: by the choice 6; by the [EOFError] of [input]
    when no line is left; or by [ValueError], raised through [add_note] in
    a store that has no category, then and at the start.  So it ends in one
    of the first two ways when a category is registered at the start. *)
Theorem menu_loop_endings :
  forall (inputs : list string) (w : world),
    Dict.wf (categories (self w)) ->
    (fst (menu_loop inputs w) = Goodbye
     \/ fst (menu_loop inputs w) = EndOfInput
     \/ (fst (menu_loop inputs w) = Crashed ValueError
         /\ categories (self (snd (menu_loop inputs w))) = []
         /\ categories (self w) = []))
    /\ (categories (self w) <> [] ->
        fst (menu_loop inputs w) = Goodbye
        \/ fst (menu_loop inputs w) = EndOfInput).
Proof.
  intros inputs w Hwf.
  assert (H : fst (menu_loop inputs w) = Goodbye
              \/ fst (menu_loop inputs w) = EndOfInput
              \/ (fst (menu_loop inputs w) = Crashed ValueError
                  /\ categories (self (snd (menu_loop inputs w))) = []
                  /\ categories (self w) = [])).
  { revert Hwf.
    apply (menu_loop_selves
             (fun me r me' =>
                Dict.wf (categories me) ->
                r = Goodbye \/ r = EndOfInput
                \/ (r = Crashed ValueError /\ categories me' = []
                    /\ categories me = []))); auto.
    - intros s e w0 E Hwf0.
      destruct (add_note_raised s w0 e) as [_ Hr]; [now rewrite E|].
      destruct (Hr Hwf0) as [-> Hc]. right. right. now repeat split.
    - intros c w0 r me' Hr Hwf0.
      destruct (after_categories c w0) as [added [Ec Hw]].
      destruct (Hr (Hw Hwf0)) as [H0 | [H0 | [H0 [Hc' Hc]]]]; auto.
      right. right. split; [exact H0|]. split; [exact Hc'|].
      rewrite Ec in Hc. now apply app_eq_nil in Hc. }
  split; [exact H|]. intros Hne.
  destruct H as [H | [H | [_ [_ Hc]]]]; auto. contradiction.
Qed.

(** A data file that does not hold a JSON object leaves [load_data] with
    the object as it was. *)
Lemma load_data_no_object w :
  match files (fs w) (data_file (self w)) with
  | Some (Json (JObj _)) => False
  | _ => True
  end ->
  exists w', load_data w = Some (Returned tt, w')
             /\ self w' = self w /\ fs w' = fs w.
Proof.
  intros H. unfold load_data, print. cbn [snd fs self stdout].
  destruct (files (fs w) (data_file (self w))) as [[|j]|];
    try (eexists; split; [reflexivity | now split]).
  destruct j; try (eexists; split; [reflexivity | now split]).
  contradiction.
Qed.

(** Started where the data file is missing or does not hold a JSON object,
    the program ends with [ValueError] when the first choice is 2 and the
    note typed is not blank, whatever is typed after it; nothing has been
    stored by then. *)
Theorem menu_first_note_crashes :
  forall (f : filesystem) (note_content : string) (rest : list string),
    match files f "0-Smart_Notes_Categorizer/notes.json" with
    | Some (Json (JObj _)) => False
    | _ => True
    end ->
    is_empty (strip note_content) = false ->
    exists w,
      menu ("2" :: note_content :: rest) f = Some (Crashed ValueError, w)
      /\ self w = init "0-Smart_Notes_Categorizer/notes.json"
      /\ fs w = f.
Proof.
  intros f note_content rest Hf Hs. unfold menu.
  destruct (load_data_no_object
              (fresh "0-Smart_Notes_Categorizer/notes.json" f) Hf)
    as [w0 [-> [Hself Hfs]]].
  cbn [menu_loop String.eqb Ascii.eqb Bool.eqb]. unfold calling.
  set (w1 := show_prompt _ (show_menu w0)).
  assert (Hself1 : self w1 = init "0-Smart_Notes_Categorizer/notes.json")
    by exact Hself.
  rewrite (add_note_raises note_content w1 ValueError Hs).
  - exists w1. split; [reflexivity|]. split; [exact Hself1 | exact Hfs].
  - rewrite Hself1. apply categorize_no_category.
Qed.

End Menu.

(** ** [add_note]: the category and the weights *)

Section Filing.

Lemma blank_has_no_word (s : string) :
  is_empty (strip s) = true -> split s = [].
Proof.
  intros H. apply is_empty_true in H.
  rewrite <- split_strip, H. reflexivity.
Qed.

Lemma some_token_matches_strip kws s :
  some_token_matches kws (strip s) <-> some_token_matches kws s.
Proof. unfold some_token_matches. now rewrite split_strip. Qed.

(** In a store built by calls from the empty store, a note of which some
    token matches, up to case, a keyword of a registered category is filed
    by [add_note] under a registered category one of whose keywords a token
    matches: never under "Others" for want of weight. *)
Theorem matching_note_is_filed :
  forall (path : string) (f : filesystem) (w : world) (s c : string)
         (kws : list string),
    reachable path f w ->
    In (c, kws) (categories (self w)) ->
    some_token_matches kws s ->
    exists w' c' kws',
      add_note s w = (Returned tt, w')
      /\ notes (self w')
         = (notes (self w)
            ++ [{| content := strip s; category := c' |}])%list
      /\ In (c', kws') (categories (self w))
      /\ some_token_matches kws' s.
Proof.
  intros path f w s c kws Hr Hin Hm.
  destruct (reachable_tidy path f w Hr) as [Hwf [_ [_ Hw]]].
  assert (Hs : is_empty (strip s) = false).
  { destruct (is_empty (strip s)) eqn:E; [|reflexivity].
    destruct Hm as [word [kw [Hword _]]].
    rewrite (blank_has_no_word s E) in Hword. destruct Hword. }
  destruct (categorize_matched (keyword_weights (self w))
              (fun k v H => proj1 (Hw k v H))
              (categories (self w)) (strip s) c kws Hwf Hin)
    as [c' [kws' [Hc [Hin' Hm']]]].
  { exact (proj2 (some_token_matches_strip kws s) Hm). }
  destruct (add_note_returns s w c' Hs Hc) as [w' [E H]].
  exists w', c', kws'. split; [exact E|]. split; [now rewrite H|].
  split; [exact Hin'|].
  exact (proj1 (some_token_matches_strip kws' s) Hm').
Qed.

(** What [add_note] does to the weights, once a category is registered and
    the content is not blank: under the category it chose, a key that is
    one of the category's keywords gains one for every token of the content
    that is equal to it, case included, and every other weight stays; when
    it chose "Others" and no category has that name, all weights stay. *)
Theorem add_note_counts_equal_tokens :
  forall (s : string) (w : world),
    Dict.wf (categories (self w)) -> categories (self w) <> [] ->
    is_empty (strip s) = false ->
    exists w' c,
      add_note s w = (Returned tt, w')
      /\ categorize_notes (strip s) w = (Returned c, w)
      /\ forall k,
           Dict.get k (keyword_weights (self w'))
           = match Dict.get c (categories (self w)) with
             | Some kws =>
                 if in_list k kws && Z.ltb 0 (count k (split s))
                 then Some (get_or k 0 (keyword_weights (self w))
                            + count k (split s))
                 else Dict.get k (keyword_weights (self w))
             | None => Dict.get k (keyword_weights (self w))
             end.
Proof.
  intros s w Hwf Hne Hs.
  destruct (categorize_returns (keyword_weights (self w))
              (categories (self w)) (strip s) Hwf Hne) as [c Hc].
  destruct (add_note_returns s w c Hs Hc) as [w' [E H]].
  exists w', c. split; [exact E|].
  split; [now rewrite categorize_notes_run, Hc|].
  intros k. rewrite H. cbn [keyword_weights]. unfold weights_after, mem.
  rewrite split_strip.
  destruct (Dict.get c (categories (self w))) as [kws|] eqn:Eg;
    [|reflexivity].
  rewrite get_bump_weights. unfold get_or at 1. now rewrite Eg.
Qed.

End Filing.

(** ** The further statements at concrete inputs *)

Section MoreInstances.

Lemma add_category_refusals_witness :
  add_category "  " ["meeting"] (fresh "notes.json" empty_fs)
  = (Returned tt,
     {| self := init "notes.json"; fs := empty_fs;
        stdout := ["Error: Category name cannot be empty."] |})
  /\ add_category "Work" [" "; ""] (fresh "notes.json" empty_fs)
     = (Returned tt,
        {| self := init "notes.json"; fs := empty_fs;
           stdout := ["Error: Keywords cannot be empty."] |})
  /\ add_category " Work" ["other"]
       {| self := work_store "notes.json" []; fs := empty_fs; stdout := [] |}
     = (Returned tt,
        {| self := work_store "notes.json" []; fs := empty_fs;
           stdout := ["Error: Category 'Work' already exists."] |}).
Proof.
  split; [|split].
  - apply (proj1 (add_category_refusals "  " ["meeting"]
                    (fresh "notes.json" empty_fs))).
    reflexivity.
  - apply (proj1 (proj2 (add_category_refusals "Work" [" "; ""]
                           (fresh "notes.json" empty_fs)))).
    + reflexivity.
    + intros kw [<-|[<-|[]]]; reflexivity.
  - apply (proj2 (proj2 (add_category_refusals " Work" ["other"]
                           {| self := work_store "notes.json" [];
                              fs := empty_fs; stdout := [] |}))).
    + reflexivity.
    + exists "other". split; [now left | reflexivity].
    + reflexivity.
Defined.

Lemma add_category_twice_witness :
  exists w1 w2,
    add_category "Work" ["meeting"] (fresh "notes.json" empty_fs)
    = (Returned tt, w1)
    /\ add_category " Work " ["other"] w1 = (Returned tt, w2)
    /\ Dict.get "Work" (categories (self w2)) = Some ["meeting"].
Proof.
  destruct (add_category_twice "Work" " Work " ["meeting"] ["other"]
              (fresh "notes.json" empty_fs))
    as [w1 [w2 [E1 [E2 [_ [_ G]]]]]].
  - reflexivity.
  - reflexivity.
  - exists "meeting". split; [now left | reflexivity].
  - reflexivity.
  - exists w1, w2. split; [exact E1|]. split; [exact E2 | exact G].
Defined.


Lemma add_note_unsaved_witness :
  exists w' c,
    add_note "a meeting"
      {| self := work_store "notes.json" []; fs := locked_fs; stdout := [] |}
    = (Returned tt, w')
    /\ notes (self w') = [{| content := "a meeting"; category := c |}]
    /\ fs w' = locked_fs
    /\ In "Error saving data: Permission denied" (stdout w').
Proof.
  apply (add_note_unsaved "a meeting"
           {| self := work_store "notes.json" []; fs := locked_fs;
              stdout := [] |} "Permission denied").
  - unfold Dict.wf. cbn. repeat constructor. intros [].
  - discriminate.
  - reflexivity.
  - reflexivity.
Defined.

Lemma load_data_keeps_store_witness :
  load_data (fresh "notes.json" empty_fs)
  = Some (Returned tt,
          {| self := init "notes.json"; fs := empty_fs;
             stdout :=
               ["Loading data from: notes.json";
                "File 'notes.json' not found. A new file will be created upon saving."] |}).
Proof.
  apply (proj1 (load_data_keeps_store (fresh "notes.json" empty_fs))).
  reflexivity.
Defined.

Lemma export_notes_spec_witness :
  export_notes "  " (fresh "notes.json" empty_fs)
  = (Returned tt,
     {| self := init "notes.json"; fs := empty_fs;
        stdout := ["Error: Filename cannot be empty."] |})
  /\ exists w',
       export_notes " out.json "
         {| self := work_store "notes.json"
                      [{| content := "Buy Milk"; category := "Others" |}];
            fs := empty_fs; stdout := [] |}
       = (Returned tt, w')
       /\ files (fs w') "out.json"
          = Some (Json (JArr [JObj [("content", JStr "Buy Milk");
                                    ("category", JStr "Others")]])).
Proof.
  split.
  - apply (proj1 (export_notes_spec "  " (fresh "notes.json" empty_fs))).
    reflexivity.
  - destruct (proj2 (proj2 (export_notes_spec " out.json "
                              {| self := work_store "notes.json"
                                           [{| content := "Buy Milk";
                                               category := "Others" |}];
                                 fs := empty_fs; stdout := [] |}))
                eq_refl eq_refl) as [w' [E [_ [F _]]]].
    exists w'. split; [exact E | exact F].
Defined.

Lemma export_over_data_file_witness :
  exists w1,
    export_notes "notes.json"
      {| self := work_store "notes.json" []; fs := empty_fs; stdout := [] |}
    = (Returned tt, w1)
    /\ load_data (fresh "notes.json" (fs w1))
       = Some (Returned tt,
               {| self := init "notes.json"; fs := fs w1;
                  stdout :=
                    ["Loading data from: notes.json";
                     "Unexpected error: 'list' object has no attribute 'get'"]
               |}).
Proof.
  apply (export_over_data_file "notes.json"
           {| self := work_store "notes.json" []; fs := empty_fs;
              stdout := [] |} (init "notes.json") []); reflexivity.
Defined.

Lemma search_notes_report_witness :
  exists res w',
    search_notes "cheese"
      {| self := work_store "notes.json"
                   [{| content := "Buy Milk"; category := "Others" |}];
         fs := empty_fs; stdout := [] |}
    = (Returned res, w')
    /\ stdout w'
       = match res with
         | [] => ["No notes found containing the keyword 'cheese'."]
         | _ :: _ => []
         end.
Proof.
  destruct (search_notes_report "cheese"
              {| self := work_store "notes.json"
                           [{| content := "Buy Milk"; category := "Others" |}];
                 fs := empty_fs; stdout := [] |} eq_refl)
    as [res [w' [E [_ [_ O]]]]].
  exists res, w'. split; [exact E | exact O].
Defined.

Lemma search_notes_finds_witness :
  exists res w',
    search_notes " milk"
      {| self := work_store "notes.json"
                   [{| content := "Buy Milk"; category := "Others" |}];
         fs := empty_fs; stdout := [] |}
    = (Returned res, w')
    /\ In {| content := "Buy Milk"; category := "Others" |} res.
Proof.
  apply (search_notes_finds " milk"
           {| self := work_store "notes.json"
                        [{| content := "Buy Milk"; category := "Others" |}];
              fs := empty_fs; stdout := [] |}
           {| content := "Buy Milk"; category := "Others" |}).
  - left. reflexivity.
  - exists "buy", "". reflexivity.
  - reflexivity.
Defined.

Lemma notes_are_stripped_witness :
  is_empty "A Meeting" = false /\ strip "A Meeting" = "A Meeting".
Proof.
  apply (notes_are_stripped "notes.json" empty_fs
           (after (AddNote " A Meeting ")
              (after (AddCategory " Work " ["meeting "; ""])
                 (fresh "notes.json" empty_fs)))
           (reach_call _ _ _ _ (reach_call _ _ _ _ (reach_init _ _)))
           {| content := "A Meeting"; category := "Work" |}).
  left. reflexivity.
Defined.

Lemma categories_are_tidy_witness :
  NoDup (keys (categories
                 (self (after (AddCategory "Home" ["rent"])
                          (after (AddCategory " Work " ["meeting "; ""])
                             (fresh "notes.json" empty_fs)))))).
Proof.
  apply (proj1 (categories_are_tidy "notes.json" empty_fs
                  (after (AddCategory "Home" ["rent"])
                     (after (AddCategory " Work " ["meeting "; ""])
                        (fresh "notes.json" empty_fs)))
                  (reach_call _ _ _ _
                     (reach_call _ _ _ _ (reach_init _ _))))).
Defined.

Lemma weights_are_earned_witness :
  1 <= 1
  /\ exists c kws,
       In (c, kws)
         (categories
            (self (after (AddNote "a meeting")
                     (after (AddCategory "Work" ["meeting"])
                        (fresh "notes.json" empty_fs)))))
       /\ In "meeting" kws.
Proof.
  apply (weights_are_earned "notes.json" empty_fs
           (after (AddNote "a meeting")
              (after (AddCategory "Work" ["meeting"])
                 (fresh "notes.json" empty_fs)))
           (reach_call _ _ _ _ (reach_call _ _ _ _ (reach_init _ _)))
           "meeting" 1).
  reflexivity.
Defined.

Lemma categorize_takes_maximum_witness :
  exists c kws,
    In (c, kws) [("Work", ["a"; "b"]); ("Home", ["A"; "b"])]
    /\ (forall c' kws',
          In (c', kws') [("Work", ["a"; "b"]); ("Home", ["A"; "b"])] ->
          match_score [] (map lower (split "a B")) kws'
          <= match_score [] (map lower (split "a B")) kws)
    /\ categorize [("Work", ["a"; "b"]); ("Home", ["A"; "b"])] [] "a B"
       = Returned
           (if Z.eqb (match_score [] (map lower (split "a B")) kws) 0
            then "Others" else c).
Proof.
  apply (categorize_takes_maximum []
           [("Work", ["a"; "b"]); ("Home", ["A"; "b"])] "a B").
  - unfold Dict.wf. cbn. repeat constructor; cbn; intuition discriminate.
  - discriminate.
Defined.

Lemma matching_note_is_filed_witness :
  exists w' c' kws',
    add_note "A Meeting"
      (after (AddCategory "Work" ["meeting"]) (fresh "notes.json" empty_fs))
    = (Returned tt, w')
    /\ notes (self w')
       = (notes (self (after (AddCategory "Work" ["meeting"])
                         (fresh "notes.json" empty_fs)))
          ++ [{| content := strip "A Meeting"; category := c' |}])%list
    /\ In (c', kws')
         (categories (self (after (AddCategory "Work" ["meeting"])
                              (fresh "notes.json" empty_fs))))
    /\ some_token_matches kws' "A Meeting".
Proof.
  apply (matching_note_is_filed "notes.json" empty_fs
           (after (AddCategory "Work" ["meeting"])
              (fresh "notes.json" empty_fs))
           "A Meeting" "Work" ["meeting"]
           (reach_call _ _ _ _ (reach_init _ _))).
  - left. reflexivity.
  - exists "Meeting", "meeting".
    split; [right; left; reflexivity|]. split; [now left | reflexivity].
Defined.

Lemma add_note_counts_equal_tokens_witness :
  exists w' c,
    add_note "meeting Meeting meeting"
      {| self := work_store "notes.json" []; fs := empty_fs; stdout := [] |}
    = (Returned tt, w')
    /\ categorize_notes "meeting Meeting meeting"
         {| self := work_store "notes.json" []; fs := empty_fs;
            stdout := [] |}
       = (Returned c,
          {| self := work_store "notes.json" []; fs := empty_fs;
             stdout := [] |}).
Proof.
  destruct (add_note_counts_equal_tokens "meeting Meeting meeting"
              {| self := work_store "notes.json" []; fs := empty_fs;
                 stdout := [] |})
    as [w' [c [E [C _]]]].
  - unfold Dict.wf. cbn. repeat constructor. intros [].
  - discriminate.
  - reflexivity.
  - exists w', c. split; [exact E | exact C].
Defined.

Lemma menu_loop_keeps_invariants_witness :
  tidy (self (snd (menu_loop
                     ["1"; "Work"; "meeting"; "2"; "a meeting"; "6"]
                     (fresh "notes.json" empty_fs))))
  /\ categories_known
       (self (snd (menu_loop
                     ["1"; "Work"; "meeting"; "2"; "a meeting"; "6"]
                     (fresh "notes.json" empty_fs)))).
Proof.
  apply (menu_loop_keeps_invariants
           ["1"; "Work"; "meeting"; "2"; "a meeting"; "6"]
           (fresh "notes.json" empty_fs)).
  - split; [constructor|]. split; [intros n []|].
    split; [intros c kws [] | intros k v H; discriminate H].
  - intros n [].
Defined.

Lemma menu_loop_endings_witness :
  (fst (menu_loop ["2"; "hello"; "6"] (fresh "notes.json" empty_fs))
   = Goodbye
   \/ fst (menu_loop ["2"; "hello"; "6"] (fresh "notes.json" empty_fs))
      = EndOfInput
   \/ (fst (menu_loop ["2"; "hello"; "6"] (fresh "notes.json" empty_fs))
       = Crashed ValueError
       /\ categories
            (self (snd (menu_loop ["2"; "hello"; "6"]
                          (fresh "notes.json" empty_fs)))) = []
       /\ categories (self (fresh "notes.json" empty_fs)) = []))
  /\ (fst (menu_loop ["2"; "a meeting"; "4"]
             {| self := work_store "notes.json" []; fs := empty_fs;
                stdout := [] |})
      = Goodbye
      \/ fst (menu_loop ["2"; "a meeting"; "4"]
                {| self := work_store "notes.json" []; fs := empty_fs;
                   stdout := [] |})
         = EndOfInput).
Proof.
  split.
  - apply (proj1 (menu_loop_endings ["2"; "hello"; "6"]
                    (fresh "notes.json" empty_fs) (NoDup_nil string))).
  - apply (proj2 (menu_loop_endings ["2"; "a meeting"; "4"]
                    {| self := work_store "notes.json" []; fs := empty_fs;
                       stdout := [] |}
                    (NoDup_cons "Work" (fun H : In "Work" [] => H)
                       (NoDup_nil string)))).
    discriminate.
Defined.

Lemma menu_first_note_crashes_witness :
  exists w,
    menu ["2"; "hello"; "1"; "Work"; "meeting"] empty_fs
    = Some (Crashed ValueError, w)
    /\ self w = init "0-Smart_Notes_Categorizer/notes.json"
    /\ fs w = empty_fs.
Proof.
  apply (menu_first_note_crashes empty_fs "hello"
           ["1"; "Work"; "meeting"]).
  - exact I.
  - reflexivity.
Defined.

End MoreInstances.

(** ** Loading a document without the three members *)

Section Defaults.

(** [load_data] replaces the three collections wholesale: from a document
    that is an object without the members "notes", "categories" and
    "keyword_weights", it leaves the object empty, whatever it held. *)
Theorem load_data_defaults :
  forall (w : world) (data : list (string * json)),
    files (fs w) (data_file (self w)) = Some (Json (JObj data)) ->
    Dict.get "notes" data = None ->
    Dict.get "categories" data = None ->
    Dict.get "keyword_weights" data = None ->
    load_data w
    = Some (Returned tt,
            {| self := init (data_file (self w)); fs := fs w;
               stdout :=
                 (stdout w
                  ++ [("Loading data from: " ++ data_file (self w))%string;
                      "Data loaded successfully!"])%list |}).
Proof.
  intros w data Hf Hn Hc Hk.
  unfold load_data, print. cbn [snd fs self stdout]. rewrite Hf.
  unfold get_or. rewrite Hn, Hc, Hk.
  cbn [notes_of_json categories_of_json weights_of_json map_opt].
  unfold bind, put_self. cbn [fs stdout self]. unfold init.
  now rewrite <- app_assoc.
Qed.

Lemma load_data_defaults_witness :
  load_data
    {| self := work_store "notes.json"
                 [{| content := "Buy Milk"; category := "Others" |}];
       fs := fs_write "notes.json" (Json (JObj [("version", JInt 2)]))
               empty_fs;
       stdout := [] |}
  = Some (Returned tt,
          {| self := init "notes.json";
             fs := fs_write "notes.json" (Json (JObj [("version", JInt 2)]))
                     empty_fs;
             stdout := ["Loading data from: notes.json";
                        "Data loaded successfully!"] |}).
Proof.
  apply (load_data_defaults
           {| self := work_store "notes.json"
                        [{| content := "Buy Milk"; category := "Others" |}];
              fs := fs_write "notes.json" (Json (JObj [("version", JInt 2)]))
                      empty_fs;
              stdout := [] |}
           [("version", JInt 2)]); reflexivity.
Defined.

End Defaults.

(** ** The keys under which [categorize_notes] reads the weights *)

Section Lowered.

Section AnyStrings.

Variables (K : Type) (eqb : K -> K -> bool) (lower : K -> K)
          (split : K -> list K) (others : K).

Lemma any_score_word_reads (weights1 weights2 : list (K * Z)) word items
    scores :
  Any.get K eqb word weights1 = Any.get K eqb word weights2 ->
  Any.score_word K eqb lower weights1 word items scores
  = Any.score_word K eqb lower weights2 word items scores.
Proof.
  intros H. revert scores.
  induction items as [|[c kws] rest IH]; intros scores; [reflexivity|].
  cbn [Any.score_word]. unfold Any.get_or. rewrite H.
  destruct (Any.in_list K eqb word (map lower kws)); [|apply IH].
  destruct (Any.add_to_score K eqb _ _ _); cbn [obind];
    [apply IH | reflexivity].
Qed.

Lemma any_score_words_read (weights1 weights2 : list (K * Z)) cats words
    scores :
  (forall word, In word words ->
     Any.get K eqb word weights1 = Any.get K eqb word weights2) ->
  Any.score_words K eqb lower weights1 cats words scores
  = Any.score_words K eqb lower weights2 cats words scores.
Proof.
  revert scores. induction words as [|word rest IH]; intros scores H.
  - reflexivity.
  - cbn [Any.score_words].
    rewrite (any_score_word_reads weights1 weights2 word)
      by (apply H; now left).
    destruct (Any.score_word _ _ _ _ _ _ _); cbn [obind]; [|reflexivity].
    apply IH. intros; apply H; now right.
Qed.

(** Whatever the strings and whatever [lower] does to them, the weights are
    read under keys that are the [lower] of a token. *)
Lemma any_categorize_reads (weights1 weights2 : list (K * Z)) cats
    note_content :
  (forall tok,
     Any.get K eqb (lower tok) weights1 = Any.get K eqb (lower tok) weights2)
  ->
  Any.categorize K eqb lower split others cats weights1 note_content
  = Any.categorize K eqb lower split others cats weights2 note_content.
Proof.
  intros H. unfold Any.categorize.
  rewrite (any_score_words_read weights1 weights2); [reflexivity|].
  intros word Hw. apply in_map_iff in Hw as [tok [<- _]]. apply H.
Qed.

End AnyStrings.

(** On [string], [Any.categorize] is [categorize]. *)
Lemma categorize_is_any cats weights note_content :
  categorize cats weights note_content
  = Any.categorize string String.eqb lower split "Others" cats weights
      note_content.
Proof. reflexivity. Qed.

Lemma wide_eqb_upsilon (k : Wide.str) :
  Wide.eqb k Wide.upsilon = true -> k = Wide.upsilon.
Proof.
  destruct k as [|c [|c' r]]; cbn; try discriminate.
  - destruct c; [discriminate | reflexivity].
  - destruct c; cbn; discriminate.
Qed.

(** C10 (the claim as stated fails): on strings with the character U+03D2,
    which is uppercase and which [lower] leaves as it is, two tables of
    weights that differ only under the key U+03D2, a key with an uppercase
    character, give different results: with the weight 3 the note is filed
    under "A", without it under "B". *)
Lemma uppercase_key_changes_category :
  Wide.has_upper Wide.upsilon = true
  /\ Wide.lower Wide.upsilon = Wide.upsilon
  /\ (forall k, Wide.has_upper k = false ->
        Any.get Wide.str Wide.eqb k [(Wide.upsilon, 3)]
        = Any.get Wide.str Wide.eqb k ([] : list (Wide.str * Z)))
  /\ Wide.categorize Wide.upsilon_categories [(Wide.upsilon, 3)]
       Wide.upsilon_note
     = Returned (Wide.of_string "A")
  /\ Wide.categorize Wide.upsilon_categories [] Wide.upsilon_note
     = Returned (Wide.of_string "B")
  /\ Wide.categorize Wide.upsilon_categories [(Wide.upsilon, 3)]
       Wide.upsilon_note
     <> Wide.categorize Wide.upsilon_categories [] Wide.upsilon_note.
Proof.
  split; [reflexivity|]. split; [reflexivity|]. split; [|split; [|split]].
  - intros k Hk. cbn [Any.get].
    destruct (Wide.eqb k Wide.upsilon) eqn:E; [|reflexivity].
    apply wide_eqb_upsilon in E. subst k. discriminate Hk.
  - reflexivity.
  - reflexivity.
  - discriminate.
Qed.

(** C10, as amended: [categorize_notes] reads the weights only under keys
    that are the [lower] of a string.  Two tables of weights that agree
    under every such key give the same result, on any strings and whatever
    [lower] does to them, and so on the strings of the store; hence after
    [update_keyword_weights] the result of [categorize_notes] is the same
    for two lists of words that hold every such key equally often: the
    words that are not the [lower] of any string do not count. *)
Theorem categorize_reads_lowered_keys :
  (forall (K : Type) (eqb : K -> K -> bool) (lower : K -> K)
          (split : K -> list K) (others : K)
          (cats : list (K * list K)) (weights1 weights2 : list (K * Z))
          (note_content : K),
     (forall s, Any.get K eqb (lower s) weights1
                = Any.get K eqb (lower s) weights2) ->
     Any.categorize K eqb lower split others cats weights1 note_content
     = Any.categorize K eqb lower split others cats weights2 note_content)
  /\ (forall (cats : dict (list string)) (weights1 weights2 : dict Z)
             (note_content : string),
        (forall s, Dict.get (lower s) weights1
                   = Dict.get (lower s) weights2) ->
        categorize cats weights1 note_content
        = categorize cats weights2 note_content)
  /\ (forall (words1 words2 : list string) (category : string) (w : world)
             (note_content : string),
        (forall s, count (lower s) words1 = count (lower s) words2) ->
        fst (categorize_notes note_content
               (snd (update_keyword_weights words1 category w)))
        = fst (categorize_notes note_content
                 (snd (update_keyword_weights words2 category w)))).
Proof.
  split; [|split].
  - intros K eqb lower split others cats weights1 weights2 note_content H.
    now apply any_categorize_reads.
  - intros cats weights1 weights2 note_content H.
    now apply categorize_reads_lowered.
  - intros words1 words2 category w note_content H.
    rewrite !categorize_notes_run. cbn [fst].
    destruct (update_keyword_weights_self words1 category w) as [_ ->].
    destruct (update_keyword_weights_self words2 category w) as [_ ->].
    cbn [with_weights self categories keyword_weights].
    apply categorize_reads_lowered. intros s. unfold weights_after.
    destruct (mem category (categories (self w))); [|reflexivity].
    now rewrite !get_bump_weights, H.
Qed.

(** The weight 9 under "Meeting" is not read: "Meeting b b" scores 1 for
    "A" and 2 for "B" with it and without it. *)
Lemma categorize_reads_lowered_keys_witness :
  categorize [("A", ["meeting"]); ("B", ["b"])] [("Meeting", 9)]
    "Meeting b b"
  = categorize [("A", ["meeting"]); ("B", ["b"])] [] "Meeting b b"
  /\ categorize [("A", ["meeting"]); ("B", ["b"])] [] "Meeting b b"
     = Returned "B".
Proof.
  split; [|reflexivity].
  apply (proj1 (proj2 categorize_reads_lowered_keys)
           [("A", ["meeting"]); ("B", ["b"])] [("Meeting", 9)] []
           "Meeting b b").
  intros s. cbn [Dict.get].
  destruct (String.eqb (lower s) "Meeting") eqn:E; [|reflexivity].
  apply String.eqb_eq in E.
  pose proof (lower_idempotent s) as H. rewrite E in H. discriminate H.
Defined.

End Lowered.
